(** * auxmark: the scan / preprocess / rewrite engine of tools/auxmark

    A shallow embedding of [tools/auxmark/processor.py] (class [Processor])
    and [tools/auxmark/worker.py] ([extract_domain_from_job] and
    [RateLimitedWorkerPool]), with the data types of [tools/auxmark/core.py];
    then the configuration ([tools/auxmark/config.py], [ModuleRegistry]),
    and the helpers of the two detectors
    ([tools/auxmark/modules/image_localizer.py] and
    [tools/auxmark/modules/tweet_downloader.py]).

    Modelling choices:
    - a [pathlib.Path] is its list of components; [name] is the last one and
      [parent] the rest, as in [PurePosixPath];
    - the file system is a function from paths to the [readlines()] view of
      a file ([None] = no file there); directories are implicit;
    - the outcome of every operation that touches the outside world
      (reading a file, [mkdir], [git mv], writing and replacing the
      temporary file, [module.preprocess]) is given by an oracle;
    - a Python exception raised by a detector's [postprocess] is [None];
    - everything printed to stdout/stderr that is not verbose logging is
      recorded as a [message]; calls into detectors are recorded as
      [event]s of a trace. *)

From Stdlib Require Import String Ascii List ZArith QArith Bool Lia DecimalString DecimalNat.
Import ListNotations.

#[local] Set Warnings "-register-all".

Open Scope string_scope.
Open Scope list_scope.
Open Scope nat_scope.

(* ------------------------------------------------------------------ *)
(** ** Strings and [pathlib] *)

Module Py.

(** [s.rfind(c)] *)
Fixpoint rfind (c : ascii) (s : string) : option nat :=
  match s with
  | EmptyString => None
  | String a s' =>
      match rfind c s' with
      | Some i => Some (S i)
      | None => if Ascii.eqb a c then Some 0 else None
      end
  end.

(** [s.find(c)] *)
Fixpoint find (c : ascii) (s : string) : option nat :=
  match s with
  | EmptyString => None
  | String a s' =>
      if Ascii.eqb a c then Some 0
      else match find c s' with Some i => Some (S i) | None => None end
  end.

(** [s[:i]] and [s[i:]] *)
Definition take (i : nat) (s : string) : string := substring 0 i s.
Definition drop (i : nat) (s : string) : string :=
  substring i (String.length s - i) s.

Definition contains (c : ascii) (s : string) : bool :=
  match find c s with Some _ => true | None => false end.

End Py.

Definition path := list string.

(** [Path.__eq__]: component-wise. *)
Fixpoint path_eqb (p q : path) : bool :=
  match p, q with
  | [], [] => true
  | a :: p', b :: q' => String.eqb a b && path_eqb p' q'
  | _, _ => false
  end.

(** [PurePath.name] and [PurePath.parent] *)
Definition name (p : path) : string := last p "".
Definition parent (p : path) : path := removelast p.

(** [PurePath.suffix]:
    [i = name.rfind('.'); if 0 < i < len(name) - 1: return name[i:]
     else: return ''] *)
Definition suffix_of (n : string) : string :=
  match Py.rfind "." n with
  | Some i =>
      if (0 <? i) && (i <? String.length n - 1) then Py.drop i n else ""
  | None => ""
  end.

(** [PurePath.stem] *)
Definition stem_of (n : string) : string :=
  match Py.rfind "." n with
  | Some i =>
      if (0 <? i) && (i <? String.length n - 1) then Py.take i n else n
  | None => n
  end.

Definition suffix (p : path) : string := suffix_of (name p).
Definition stem (p : path) : string := stem_of (name p).

(** [PurePath.with_suffix(s)]: the name without its old suffix, then [s] *)
Definition with_suffix (p : path) (s : string) : path :=
  parent p ++ [String.append (stem p) s].

(* ------------------------------------------------------------------ *)
(** ** Data model ([core.py]) *)

(** Values stored in a probe's metadata dict. *)
Inductive pyval : Type :=
| PStr (s : string)
| PBool (b : bool)
| PNone
| PList (l : list pyval)
| PDict (d : list (string * pyval)).

Definition metadata := list (string * pyval).

(** [key in d] and [d[key]] / [d.get(key)] *)
Fixpoint dict_get (k : string) (d : list (string * pyval)) : option pyval :=
  match d with
  | [] => None
  | (k', v) :: d' => if String.eqb k k' then Some v else dict_get k d'
  end.

(** Python truthiness of a value. *)
Definition truthy (v : pyval) : bool :=
  match v with
  | PStr s => negb (String.eqb s "")
  | PBool b => b
  | PNone => false
  | PList l => negb (Nat.eqb (length l) 0)
  | PDict d => negb (Nat.eqb (length d) 0)
  end.

(** [str(v)] as used in an f-string. *)
Definition py_str (v : pyval) : string :=
  match v with
  | PStr s => s
  | PBool true => "True"
  | PBool false => "False"
  | PNone => "None"
  | PList _ => "[...]"
  | PDict _ => "{...}"
  end.

Inductive action : Type :=
| IGNORE
| TAG
| TAG_WITH_PREPROCESS_ONLY
| TAG_WITH_PREPROCESS_AND_POSTPROCESS
| EXPAND.

Record Job : Type := mkJob {
  j_file_path : path;
  j_line_no : nat;
  j_line : string;
  j_module_name : string;
  j_metadata : metadata }.

Record PostprocessLine : Type := mkPP {
  pp_file_path : path;
  pp_line_no : nat;
  pp_line : string;
  pp_metadata : metadata }.

(** A detector ([BaseModule]): its name, its coarse pre-filter
    [regex.search], [probe] and [postprocess] ([None] when
    [postprocess] raises). [preprocess] talks to the network; its outcome
    is an oracle of the run (see [outcome]). *)
Record BaseModule : Type := mkModule {
  m_name : string;
  m_regex : string -> bool;
  m_probe : path -> nat -> string -> action * metadata;
  m_postprocess : path -> nat -> string -> metadata -> option string }.

(** A module instance together with the two lists it accumulates. *)
Record ModuleState : Type := mkMS {
  ms_module : BaseModule;
  jobs : list Job;
  postprocess_lines : list PostprocessLine }.

(* ------------------------------------------------------------------ *)
(** ** [extract_domain_from_job] ([worker.py]) *)

Module Url.

(** [_WHATWG_C0_CONTROL_OR_SPACE]: every character up to [' '] *)
Fixpoint lstrip_c0 (s : string) : string :=
  match s with
  | EmptyString => EmptyString
  | String a s' => if Nat.leb (nat_of_ascii a) 32 then lstrip_c0 s' else s
  end.

(** [_UNSAFE_URL_BYTES_TO_REMOVE = ['\t', '\r', '\n']] *)
Fixpoint remove_unsafe (s : string) : string :=
  match s with
  | EmptyString => EmptyString
  | String a s' =>
      let n := nat_of_ascii a in
      if Nat.eqb n 9 || Nat.eqb n 13 || Nat.eqb n 10 then remove_unsafe s'
      else String a (remove_unsafe s')
  end.

Definition is_alpha (a : ascii) : bool :=
  let n := nat_of_ascii a in
  (Nat.leb 65 n && Nat.leb n 90) || (Nat.leb 97 n && Nat.leb n 122).

Definition is_digit (a : ascii) : bool :=
  let n := nat_of_ascii a in Nat.leb 48 n && Nat.leb n 57.

(** [scheme_chars]: letters, digits and ["+-."] *)
Definition is_scheme_char (a : ascii) : bool :=
  is_alpha a || is_digit a || Ascii.eqb a "+" || Ascii.eqb a "-" || Ascii.eqb a ".".

Fixpoint all_scheme_chars (s : string) : bool :=
  match s with
  | EmptyString => true
  | String a s' => is_scheme_char a && all_scheme_chars s'
  end.

Definition starts_alpha (s : string) : bool :=
  match s with EmptyString => false | String a _ => is_alpha a end.

(** [_splitnetloc(url, 2)]: up to the first of ['/?#'] after ["//"] *)
Fixpoint netloc_part (s : string) : string :=
  match s with
  | EmptyString => EmptyString
  | String a s' =>
      if Ascii.eqb a "/" || Ascii.eqb a "?" || Ascii.eqb a "#" then EmptyString
      else String a (netloc_part s')
  end.

(** The [netloc] computed by [urlsplit] for a [str] argument; [None] when
    it raises [ValueError] (unbalanced brackets).  The extra validation of
    a bracketed IPv6 host and the NFKC check of non-ASCII hosts are not
    modelled. *)
Definition urlsplit_netloc (url0 : string) : option string :=
  let url1 := remove_unsafe (lstrip_c0 url0) in
  let url2 :=
    match Py.find ":" url1 with
    | Some i =>
        if (0 <? i) && starts_alpha url1 && all_scheme_chars (Py.take i url1)
        then Py.drop (S i) url1 else url1
    | None => url1
    end in
  if String.eqb (Py.take 2 url2) "//" then
    let netloc := netloc_part (Py.drop 2 url2) in
    if (Py.contains "[" netloc && negb (Py.contains "]" netloc))
       || (Py.contains "]" netloc && negb (Py.contains "[" netloc))
    then None else Some netloc
  else Some "".

End Url.

Definition LOCAL_DOMAIN : string := "__local__".

(** [url = images[0].get('url')] and friends: the inner option is the
    Python value of [url] ([None] when still unset); the outer [None] is the
    [AttributeError] raised by [.get] on a first image that is not a dict,
    which nothing in [submit_job] catches. *)
Definition job_url (md : metadata) : option (option pyval) :=
  match dict_get "images" md with
  | Some images =>
      match images with
      | PList (img :: _) =>
          match img with
          | PDict d => Some (dict_get "url" d)
          | _ => None
          end
      | _ => Some None
      end
  | None =>
      match dict_get "tweet_id" md with
      | Some tweet_id =>
          Some (Some (PStr (String.append
                  "https://publish.x.com/oembed?url=https://x.com/i/status/"
                  (py_str tweet_id))))
      | None => Some (dict_get "url" md)
      end
  end.

(** [extract_domain_from_job]; [None] when it raises. [urlparse] of a value
    that is not a [str] raises inside the [try] and falls back too. *)
Definition extract_domain_from_job (job : Job) : option string :=
  match job_url (j_metadata job) with
  | None => None
  | Some url =>
      Some match url with
           | Some u =>
               if truthy u then
                 match u with
                 | PStr s =>
                     match Url.urlsplit_netloc s with
                     | Some netloc =>
                         if String.eqb netloc "" then LOCAL_DOMAIN else netloc
                     | None => LOCAL_DOMAIN
                     end
                 | _ => LOCAL_DOMAIN
                 end
               else LOCAL_DOMAIN
           | None => LOCAL_DOMAIN
           end
  end.

(* ------------------------------------------------------------------ *)
(** ** The processor ([processor.py]) *)

(** What the run prints, apart from verbose logging. *)
Inductive message : Type :=
| MsgAlreadyIndex (p : path)            (* Warning: ... already index.md *)
| MsgDryExpand (p new_file : path)      (* [DRY-RUN] Would expand *)
| MsgGitMvFailed (p : path)             (* Error expanding ...: git mv failed *)
| MsgExpandError (p : path)             (* Error expanding ...: {e} *)
| MsgReadError (p : path)               (* Error reading ... *)
| MsgDryPreprocess (p : path) (n : nat) (* [DRY-RUN] Would run preprocessing *)
| MsgPreprocessError (p : path) (n : nat) (* Error in preprocessing p:n *)
| MsgDryPostprocess (p : path) (k : nat)  (* [DRY-RUN] Would post-process *)
| MsgPostprocessError (p : path).       (* Error in post-processing ... *)

(** Observable steps of the pipeline. *)
Inductive event : Type :=
| EvPop (p : path)                           (* files_to_process.pop(0) *)
| EvEnqueue (p : path)                       (* files_to_process.append *)
| EvSubmit (m : string) (p : path) (n : nat) (* pool.submit_job *)
| EvPostprocess (m : string) (p : path) (n : nat). (* module.postprocess *)

(** The outside world: which file-system operations fail.  [write_fails f]
    is [Some k] when writing the temporary file of [f] raises after [k]
    lines. *)
Record env : Type := mkEnv {
  read_fails : path -> bool;
  mkdir_fails : path -> bool;
  git_mv_fails : path -> bool;
  write_fails : path -> option nat;
  replace_fails : path -> bool }.

Definition fsys := path -> option (list string).

Definition upd (f : fsys) (p : path) (v : option (list string)) : fsys :=
  fun q => if path_eqb q p then v else f q.

(** The result of [module.preprocess(job)] as collected by [future.result()]. *)
Inductive outcome : Type :=
| Returned (b : bool)
| Raised.

(** [Processor]'s fields, the file system, what was printed and the trace.
    [max_workers] and [rate_limit_delay] only shape the timing of
    preprocessing, modelled in [Scheduler] below. *)
Record Processor : Type := mkProc {
  modules : list ModuleState;
  dry_run : bool;
  expanded_files : list path;
  files_to_process : list path;
  fs : fsys;
  out : list message;
  trace : list event;
  processed_count : nat;
  pre_completed : nat;
  pre_failed : nat }.

Definition set_modules (ms : list ModuleState) (st : Processor) : Processor :=
  mkProc ms (dry_run st) (expanded_files st) (files_to_process st) (fs st)
    (out st) (trace st) (processed_count st) (pre_completed st) (pre_failed st).
Definition set_files (fl : list path) (st : Processor) : Processor :=
  mkProc (modules st) (dry_run st) (expanded_files st) fl (fs st)
    (out st) (trace st) (processed_count st) (pre_completed st) (pre_failed st).
Definition set_expanded (ex : list path) (st : Processor) : Processor :=
  mkProc (modules st) (dry_run st) ex (files_to_process st) (fs st)
    (out st) (trace st) (processed_count st) (pre_completed st) (pre_failed st).
Definition set_fs (f : fsys) (st : Processor) : Processor :=
  mkProc (modules st) (dry_run st) (expanded_files st) (files_to_process st) f
    (out st) (trace st) (processed_count st) (pre_completed st) (pre_failed st).
Definition log (m : message) (st : Processor) : Processor :=
  mkProc (modules st) (dry_run st) (expanded_files st) (files_to_process st)
    (fs st) (out st ++ [m]) (trace st) (processed_count st) (pre_completed st)
    (pre_failed st).
Definition emit (evs : list event) (st : Processor) : Processor :=
  mkProc (modules st) (dry_run st) (expanded_files st) (files_to_process st)
    (fs st) (out st) (trace st ++ evs) (processed_count st) (pre_completed st)
    (pre_failed st).
Definition bump_processed (st : Processor) : Processor :=
  mkProc (modules st) (dry_run st) (expanded_files st) (files_to_process st)
    (fs st) (out st) (trace st) (S (processed_count st)) (pre_completed st)
    (pre_failed st).
Definition set_counts (c f : nat) (st : Processor) : Processor :=
  mkProc (modules st) (dry_run st) (expanded_files st) (files_to_process st)
    (fs st) (out st) (trace st) (processed_count st) c f.

(** [Processor.__init__] *)
Definition init_processor (mods : list BaseModule) (dry : bool) (f : fsys)
  : Processor :=
  mkProc (map (fun m => mkMS m [] []) mods) dry [] [] f [] [] 0 0 0.

(** [open(file_path).readlines()]; [None] when it raises. *)
Definition read_file (E : env) (st : Processor) (p : path) : option (list string) :=
  if read_fails E p then None else fs st p.

(** The dispatch on the probe's action for one module and one line. *)
Definition dispatch (p : path) (line_no : nat) (line : string)
    (ms : ModuleState) (r : action * metadata) : ModuleState * bool :=
  let m := ms_module ms in
  let (a, md) := r in
  match a with
  | IGNORE => (ms, false)
  | TAG =>
      (mkMS m (jobs ms) (postprocess_lines ms ++ [mkPP p line_no line md]), false)
  | TAG_WITH_PREPROCESS_ONLY =>
      (mkMS m (jobs ms ++ [mkJob p line_no line (m_name m) md])
         (postprocess_lines ms), false)
  | TAG_WITH_PREPROCESS_AND_POSTPROCESS =>
      (mkMS m (jobs ms ++ [mkJob p line_no line (m_name m) md])
         (postprocess_lines ms ++ [mkPP p line_no line md]), false)
  | EXPAND => (ms, true)
  end.

(** [for module in self.modules:] on one line; the boolean is
    [file_needs_expand] raised by this line. *)
Fixpoint scan_line (p : path) (line_no : nat) (line : string)
    (mods : list ModuleState) : list ModuleState * bool :=
  match mods with
  | [] => ([], false)
  | ms :: rest =>
      let (ms', e1) :=
        if m_regex (ms_module ms) line
        then dispatch p line_no line ms (m_probe (ms_module ms) p line_no line)
        else (ms, false) in
      let (rest', e2) := scan_line p line_no line rest in
      (ms' :: rest', e1 || e2)
  end.

(** [for line_no, line in enumerate(lines):] *)
Fixpoint scan_lines (p : path) (line_no : nat) (lines : list string)
    (mods : list ModuleState) : list ModuleState * bool :=
  match lines with
  | [] => (mods, false)
  | l :: ls =>
      let (mods1, e1) := scan_line p line_no l mods in
      let (mods2, e2) := scan_lines p (S line_no) ls mods1 in
      (mods2, e1 || e2)
  end.

Definition is_some {A} (o : option A) : bool :=
  match o with Some _ => true | None => false end.

(** [new_dir = file_path.parent / file_path.stem] *)
Definition expand_dir (p : path) : path := parent p ++ [stem p].
(** [new_file = new_dir / 'index.md'] *)
Definition expand_target (p : path) : path := expand_dir p ++ ["index.md"].

(** [Processor.expand_file].  [mkdir(parents=True, exist_ok=True)] fails
    when a file sits at [new_dir]; [git mv] fails when the source is gone
    or the destination exists. *)
Definition expand_file (E : env) (st : Processor) (p : path)
  : option path * Processor :=
  if String.eqb (name p) "index.md" then (None, log (MsgAlreadyIndex p) st)
  else
    let new_dir := expand_dir p in
    let new_file := expand_target p in
    if dry_run st then (Some new_file, log (MsgDryExpand p new_file) st)
    else if mkdir_fails E new_dir || is_some (fs st new_dir) then
      (None, log (MsgExpandError p) st)
    else if git_mv_fails E p || negb (is_some (fs st p))
            || is_some (fs st new_file) then
      (None, log (MsgGitMvFailed p) st)
    else
      (Some new_file,
       set_expanded (expanded_files st ++ [p])
         (set_fs (upd (upd (fs st) p None) new_file (fs st p)) st)).

(** [module.jobs = [j for j in module.jobs if j.file_path != file_path]]
    and the same for [postprocess_lines], for every module. *)
Definition purge (p : path) (mods : list ModuleState) : list ModuleState :=
  map (fun ms =>
         mkMS (ms_module ms)
           (filter (fun j => negb (path_eqb (j_file_path j) p)) (jobs ms))
           (filter (fun pp => negb (path_eqb (pp_file_path pp) p))
              (postprocess_lines ms)))
    mods.

(** [Processor.process_file] *)
Definition process_file (E : env) (p : path) (st : Processor) : Processor :=
  if existsb (path_eqb p) (expanded_files st) then st
  else
    match read_file E st p with
    | None => log (MsgReadError p) st
    | Some lines =>
        let (mods, file_needs_expand) := scan_lines p 0 lines (modules st) in
        let st1 := set_modules mods st in
        if file_needs_expand then
          match expand_file E st1 p with
          | (Some new_file, st2) =>
              if negb (dry_run st2) then
                emit [EvEnqueue new_file]
                  (set_files (files_to_process st2 ++ [new_file])
                     (set_modules (purge p (modules st2)) st2))
              else st2
          | (None, st2) => st2
          end
        else st1
    end.

(** The [while self.files_to_process:] loop of [process_all], run for at
    most [fuel] iterations ([None] when the fuel runs out). *)
Fixpoint scan_all (E : env) (fuel : nat) (st : Processor) : option Processor :=
  match files_to_process st with
  | [] => Some st
  | p :: rest =>
      match fuel with
      | O => None
      | S fuel' =>
          scan_all E fuel'
            (bump_processed (process_file E p (emit [EvPop p] (set_files rest st))))
      end
  end.

(** Every (module, job) pair in the order of [for module in self.modules:
    for job in module.jobs:]. *)
Definition all_jobs (mods : list ModuleState) : list (BaseModule * Job) :=
  concat (map (fun ms => map (pair (ms_module ms)) (jobs ms)) mods).

(** The submission loop: [submit_job] computes the job's domain in the
    calling thread; if that raises, nothing later is submitted and the
    exception leaves [run_preprocessing] (the boolean is [false]). *)
Fixpoint submit_all (l : list (BaseModule * Job)) : list event * bool :=
  match l with
  | [] => ([], true)
  | (m, j) :: rest =>
      match extract_domain_from_job j with
      | None => ([], false)
      | Some _ =>
          let (evs, ok) := submit_all rest in
          (EvSubmit (m_name m) (j_file_path j) (j_line_no j) :: evs, ok)
      end
  end.

(** The collection loop over [job_info]: [(completed, failed, messages)]. *)
Fixpoint collect (pre : BaseModule -> Job -> outcome)
    (l : list (BaseModule * Job)) : nat * nat * list message :=
  match l with
  | [] => (0, 0, [])
  | (m, j) :: rest =>
      let '(c, f, ms) := collect pre rest in
      match pre m j with
      | Returned true => (S c, f, ms)
      | Returned false => (c, S f, ms)
      | Raised => (c, S f, MsgPreprocessError (j_file_path j) (j_line_no j) :: ms)
      end
  end.

(** [Processor.run_preprocessing]; [pre] gives the outcome of each
    [module.preprocess(job)] (the network's answer).  [None] when an
    exception escapes. *)
Definition run_preprocessing (pre : BaseModule -> Job -> outcome)
    (st : Processor) : option Processor :=
  let l := all_jobs (modules st) in
  if Nat.eqb (length l) 0 then Some st
  else if dry_run st then
    Some (set_counts (length l) 0
            (fold_left (fun st' (mj : BaseModule * Job) =>
                          log (MsgDryPreprocess (j_file_path (snd mj))
                                 (j_line_no (snd mj))) st') l st))
  else
    let (evs, ok) := submit_all l in
    if ok then
      let '(c, f, ms) := collect pre l in
      Some (set_counts c f (fold_left (fun st' m => log m st') ms (emit evs st)))
    else None.

(** [if key not in d: d[key] = []] then [d[key].append(v)] on a dict
    kept in insertion order. *)
Fixpoint dict_append {K V : Type} (eqb : K -> K -> bool) (k : K) (v : V)
    (d : list (K * list V)) : list (K * list V) :=
  match d with
  | [] => [(k, [v])]
  | (k', vs) :: d' =>
      if eqb k k' then (k', vs ++ [v]) :: d' else (k', vs) :: dict_append eqb k v d'
  end.

Fixpoint dict_lookup {K V : Type} (eqb : K -> K -> bool) (k : K)
    (d : list (K * V)) : option V :=
  match d with
  | [] => None
  | (k', v) :: d' => if eqb k k' then Some v else dict_lookup eqb k d'
  end.

(** Every (module, tagged line) pair in the order of [for module in
    self.modules: for pp_line in module.postprocess_lines:]. *)
Definition all_tagged (mods : list ModuleState)
  : list (BaseModule * PostprocessLine) :=
  concat (map (fun ms => map (pair (ms_module ms)) (postprocess_lines ms)) mods).

(** [files_to_process] of [run_postprocessing]: tagged lines grouped by file. *)
Definition group_by_file (mods : list ModuleState)
  : list (path * list (BaseModule * PostprocessLine)) :=
  fold_left (fun d (mp : BaseModule * PostprocessLine) =>
               dict_append path_eqb (pp_file_path (snd mp)) mp d)
    (all_tagged mods) [].

(** [line_map]: line number to the (module, metadata) pairs tagging it. *)
Definition build_line_map (tagged : list (BaseModule * PostprocessLine))
  : list (nat * list (BaseModule * metadata)) :=
  fold_left (fun d (mp : BaseModule * PostprocessLine) =>
               dict_append Nat.eqb (pp_line_no (snd mp))
                 (fst mp, pp_metadata (snd mp)) d)
    tagged [].

(** [for module, metadata in line_map[line_no]:
       line = module.postprocess(file_path, line_no, line, metadata)];
    the calls made, and the final line ([None] if a call raised). *)
Fixpoint apply_tags (file : path) (line_no : nat)
    (tags : list (BaseModule * metadata)) (line : string)
  : list event * option string :=
  match tags with
  | [] => ([], Some line)
  | (m, md) :: rest =>
      let ev := EvPostprocess (m_name m) file line_no in
      match m_postprocess m file line_no line md with
      | None => ([ev], None)
      | Some line' =>
          let (evs, r) := apply_tags file line_no rest line' in (ev :: evs, r)
      end
  end.

(** [for line_no, line in enumerate(lines): ... new_lines.append(line)] *)
Fixpoint rewrite_lines (file : path) (lm : list (nat * list (BaseModule * metadata)))
    (line_no : nat) (lines : list string) : list event * option (list string) :=
  match lines with
  | [] => ([], Some [])
  | l :: ls =>
      let (e1, r1) :=
        match dict_lookup Nat.eqb line_no lm with
        | Some tags => apply_tags file line_no tags l
        | None => ([], Some l)
        end in
      match r1 with
      | None => (e1, None)
      | Some l' =>
          let (e2, r2) := rewrite_lines file lm (S line_no) ls in
          (e1 ++ e2, option_map (cons l') r2)
      end
  end.

(** The [try] block of [run_postprocessing] for one file: read it, rewrite
    its lines, write them to [file_path.with_suffix('.tmp')] and
    [temp_file.replace(file_path)]; any exception is reported and the loop
    goes on. *)
Definition rewrite_file (E : env) (st : Processor) (file : path)
    (tagged : list (BaseModule * PostprocessLine)) : Processor :=
  match read_file E st file with
  | None => log (MsgPostprocessError file) st
  | Some lines =>
      let (evs, r) := rewrite_lines file (build_line_map tagged) 0 lines in
      let st1 := emit evs st in
      match r with
      | None => log (MsgPostprocessError file) st1
      | Some new_lines =>
          let temp_file := with_suffix file ".tmp" in
          match write_fails E file with
          | Some k =>
              log (MsgPostprocessError file)
                (set_fs (upd (fs st1) temp_file (Some (firstn k new_lines))) st1)
          | None =>
              let st2 := set_fs (upd (fs st1) temp_file (Some new_lines)) st1 in
              if replace_fails E file then log (MsgPostprocessError file) st2
              else set_fs (upd (upd (fs st2) temp_file None) file (Some new_lines)) st2
          end
      end
  end.

(** The body of [for file_path, tagged_lines in files_to_process.items():] *)
Definition postprocess_step (E : env) (st' : Processor)
    (ft : path * list (BaseModule * PostprocessLine)) : Processor :=
  if dry_run st' then log (MsgDryPostprocess (fst ft) (length (snd ft))) st'
  else rewrite_file E st' (fst ft) (snd ft).

(** [Processor.run_postprocessing] *)
Definition run_postprocessing (E : env) (st : Processor) : Processor :=
  match group_by_file (modules st) with
  | [] => st
  | groups => fold_left (postprocess_step E) groups st
  end.

(** [Processor.process_all]: scan until the worklist drains, then
    preprocess, then rewrite.  [None] when an exception escapes (or the scan
    runs out of fuel). *)
Definition process_all (E : env) (pre : BaseModule -> Job -> outcome)
    (fuel : nat) (files : list path) (st : Processor) : option Processor :=
  match scan_all E fuel (set_files files st) with
  | None => None
  | Some st1 =>
      match run_preprocessing pre st1 with
      | None => None
      | Some st2 => Some (run_postprocessing E st2)
      end
  end.

(* ------------------------------------------------------------------ *)
(** ** [RateLimitedWorkerPool._execute_with_rate_limit] as a transition
    system

    Each submitted job is a thread [i] with the domain [dom i] computed by
    [extract_domain_from_job] at submission.  A thread takes the domain's
    lock, waits in [_wait_for_rate_limit] until [rate_limit_delay] has
    passed since [_last_request_time[domain]], runs [module.preprocess],
    and then (only if [preprocess] returned) stores the current time in
    [_last_request_time[domain]]; the [with lock:] block releases the lock
    on return and on exception alike.  Time is an integer clock that
    advances by arbitrary positive amounts; every interleaving of the
    threads' steps is allowed. *)
Module Scheduler.

Inductive tstate : Type :=
| Queued
| Acquired
| Running (start : Z)
| Finished.

(** A completed [preprocess] call. *)
Record run : Type := mkRun {
  r_thread : nat;
  r_dom : string;
  r_start : Z;
  r_end : Z;
  r_returned : bool }.

Record sched : Type := mkSched {
  clock : Z;
  ts : nat -> tstate;
  holder : string -> option nat;           (* _domain_locks *)
  last_request_time : string -> option Z;  (* _last_request_time *)
  hist : list run }.

Definition fupd_nat {A} (f : nat -> A) (x : nat) (v : A) : nat -> A :=
  fun y => if Nat.eqb y x then v else f y.
Definition fupd_str {A} (f : string -> A) (x : string) (v : A) : string -> A :=
  fun y => if String.eqb y x then v else f y.

Section Pool.

Variable rate_limit_delay : Z.
Variable dom : nat -> string.

Inductive step : sched -> sched -> Prop :=
| step_tick s k :
    (0 < k)%Z ->
    step s (mkSched (clock s + k) (ts s) (holder s) (last_request_time s) (hist s))
| step_acquire s i :
    ts s i = Queued ->
    holder s (dom i) = None ->
    step s (mkSched (clock s) (fupd_nat (ts s) i Acquired)
              (fupd_str (holder s) (dom i) (Some i)) (last_request_time s) (hist s))
| step_start s i :
    ts s i = Acquired ->
    (forall t, last_request_time s (dom i) = Some t ->
               (t + rate_limit_delay <= clock s)%Z) ->
    step s (mkSched (clock s) (fupd_nat (ts s) i (Running (clock s)))
              (holder s) (last_request_time s) (hist s))
| step_return s i st :
    ts s i = Running st ->
    step s (mkSched (clock s) (fupd_nat (ts s) i Finished)
              (fupd_str (holder s) (dom i) None)
              (fupd_str (last_request_time s) (dom i) (Some (clock s)))
              (hist s ++ [mkRun i (dom i) st (clock s) true]))
| step_raise s i st :
    ts s i = Running st ->
    step s (mkSched (clock s) (fupd_nat (ts s) i Finished)
              (fupd_str (holder s) (dom i) None)
              (last_request_time s)
              (hist s ++ [mkRun i (dom i) st (clock s) false])).

Inductive reach (s0 : sched) : sched -> Prop :=
| reach_refl : reach s0 s0
| reach_step s s' : reach s0 s -> step s s' -> reach s0 s'.

(** The pool right after [n] submissions, at time [t0]. *)
Definition init (n : nat) (t0 : Z) : sched :=
  mkSched t0 (fun i => if Nat.ltb i n then Queued else Finished)
    (fun _ => None) (fun _ => None) [].

End Pool.

End Scheduler.

(* ------------------------------------------------------------------ *)
(** ** Reading aids for the statements *)

(** The value under a key of an insertion-ordered dict of lists, [[]] when
    the key is absent. *)
Definition lookup_list {K V : Type} (eqb : K -> K -> bool) (k : K)
    (d : list (K * list V)) : list V :=
  match dict_lookup eqb k d with Some v => v | None => [] end.

(** The rewrite of the spec (section 4.4), written from its words: the
    detectors tagging line [i] of [file], in the order the detectors are
    registered and, per detector, in the order it tagged ... *)
Definition tags_for (mods : list ModuleState) (file : path) (i : nat)
  : list (BaseModule * metadata) :=
  concat (map (fun ms =>
                 map (fun pp => (ms_module ms, pp_metadata pp))
                   (filter (fun pp => path_eqb (pp_file_path pp) file
                                      && Nat.eqb (pp_line_no pp) i)
                      (postprocess_lines ms)))
            mods).

(** ... composed left to right, each output the next input ... *)
Definition compose_spec (file : path) (i : nat)
    (tags : list (BaseModule * metadata)) (line : string) : option string :=
  fold_left (fun acc (mm : BaseModule * metadata) =>
               match acc with
               | Some l => m_postprocess (fst mm) file i l (snd mm)
               | None => None
               end)
    tags (Some line).

(** ... on every line, untagged lines unchanged. *)
Fixpoint spec_rewrite (mods : list ModuleState) (file : path) (i : nat)
    (lines : list string) : option (list string) :=
  match lines with
  | [] => Some []
  | l :: ls =>
      match compose_spec file i (tags_for mods file i) l with
      | None => None
      | Some l' => option_map (cons l') (spec_rewrite mods file (S i) ls)
      end
  end.

(** The documents popped, and the documents enqueued, along a trace. *)
Fixpoint pops (tr : list event) : list path :=
  match tr with
  | [] => []
  | EvPop p :: t => p :: pops t
  | _ :: t => pops t
  end.
Fixpoint enqueues (tr : list event) : list path :=
  match tr with
  | [] => []
  | EvEnqueue p :: t => p :: enqueues t
  | _ :: t => enqueues t
  end.

Definition is_scan_event (e : event) : bool :=
  match e with EvPop _ | EvEnqueue _ => true | _ => false end.
Definition is_submit_event (e : event) : bool :=
  match e with EvSubmit _ _ _ => true | _ => false end.
Definition is_postprocess_event (e : event) : bool :=
  match e with EvPostprocess _ _ _ => true | _ => false end.

Definition set_dry (b : bool) (st : Processor) : Processor :=
  mkProc (modules st) b (expanded_files st) (files_to_process st) (fs st)
    (out st) (trace st) (processed_count st) (pre_completed st) (pre_failed st).

(** What a preprocessing outcome could influence downstream. *)
Definition core (st : Processor)
  : list ModuleState * bool * fsys * list event * nat :=
  (modules st, dry_run st, fs st, trace st, processed_count st).

(** Number of jobs whose [preprocess] did not return [True]. *)
Definition count_failed (pre : BaseModule -> Job -> outcome)
    (l : list (BaseModule * Job)) : nat :=
  length (filter (fun mj => match pre (fst mj) (snd mj) with
                            | Returned true => false
                            | _ => true
                            end) l).

(** Runs of the same domain, in completion order, are disjoint; and a run
    that returned is followed by [rate_limit_delay] before the next start. *)
Fixpoint spaced (delay : Z) (h : list Scheduler.run) : Prop :=
  match h with
  | [] => True
  | r :: t =>
      (forall r2, In r2 t -> Scheduler.r_dom r2 = Scheduler.r_dom r ->
         (Scheduler.r_end r <= Scheduler.r_start r2)%Z
         /\ (Scheduler.r_returned r = true ->
             (Scheduler.r_end r + delay <= Scheduler.r_start r2)%Z))
      /\ spaced delay t
  end.

(* ------------------------------------------------------------------ *)
(** ** Concrete inputs *)

Module Fixtures.

(** A detector shaped like [ImageLocalizerModule.probe]: a line ["IMG"]
    asks for expansion unless the document is an [index.md], where it is
    tagged for both phases. *)
Definition img_mod : BaseModule :=
  mkModule "image_localizer" (fun l => String.eqb l "IMG")
    (fun p _ _ =>
       if String.eqb (name p) "index.md"
       then (TAG_WITH_PREPROCESS_AND_POSTPROCESS,
             [("images", PList [PDict [("url", PStr "https://example.com/a.png")]])])
       else (EXPAND, [("images", PList [PDict [("url", PStr "https://example.com/a.png")]])]))
    (fun _ _ _ _ => Some "LOCAL").

(** A detector that only tags lines ["X"] for postprocessing. *)
Definition tag_mod : BaseModule :=
  mkModule "tagger" (fun l => String.eqb l "X")
    (fun _ _ _ => (TAG, []))
    (fun _ _ l _ => Some (String.append l "!")).

Definition a_md : path := ["a.md"].
Definition b_md : path := ["b.md"].

Definition fs0 : fsys :=
  fun q => if path_eqb q a_md then Some ["hello"; "IMG"]
           else if path_eqb q b_md then Some ["X"; "plain"] else None.

Definition E_ok : env :=
  mkEnv (fun _ => false) (fun _ => false) (fun _ => false) (fun _ => None)
    (fun _ => false).
Definition E_git_fails : env :=
  mkEnv (fun _ => false) (fun _ => false) (fun _ => true) (fun _ => None)
    (fun _ => false).
Definition E_mkdir_fails : env :=
  mkEnv (fun _ => false) (fun _ => true) (fun _ => false) (fun _ => None)
    (fun _ => false).

Definition pre_ok : BaseModule -> Job -> outcome := fun _ _ => Returned true.

Definition st_real : Processor := init_processor [img_mod; tag_mod] false fs0.
Definition st_dry : Processor := init_processor [img_mod; tag_mod] true fs0.

(** [tag_mod] registered twice, both tagging line 0 of [b.md]. *)
Definition pp_b0 : PostprocessLine := mkPP b_md 0 "X" [].
Definition mods_b : list ModuleState :=
  [mkMS tag_mod [] [pp_b0]; mkMS img_mod [] []; mkMS tag_mod [] [pp_b0]].
Definition tagged_b : list (BaseModule * PostprocessLine) :=
  [(tag_mod, pp_b0); (tag_mod, pp_b0)].

(** A tagged line whose index (5) is past the end of a two-line file. *)
Definition tagged_stale : list (BaseModule * PostprocessLine) :=
  [(tag_mod, mkPP b_md 5 "X" [])].

(** [c.md]: line 0 is tagged by [tag_mod], line 1 makes [img_mod] ask
    for expansion. *)
Definition c_md : path := ["c.md"].
Definition fs1 : fsys := fun q => if path_eqb q c_md then Some ["X"; "IMG"] else None.
Definition st_c : Processor := init_processor [img_mod; tag_mod] false fs1.

(** Two tagged documents; writing the temporary file of [b.md] fails
    after one line. *)
Definition d_md : path := ["d.md"].
Definition fs2 : fsys :=
  fun q => if path_eqb q b_md then Some ["X"; "plain"]
           else if path_eqb q d_md then Some ["X"] else None.
Definition E_write_b : env :=
  mkEnv (fun _ => false) (fun _ => false) (fun _ => false)
    (fun q => if path_eqb q b_md then Some 1 else None) (fun _ => false).
Definition pp_d0 : PostprocessLine := mkPP d_md 0 "X" [].
Definition st_w : Processor :=
  mkProc [mkMS tag_mod [] [pp_b0; pp_d0]] false [] [] fs2 [] [] 0 0 0.

(** Two jobs of [img_mod] on [a/index.md]; the first one's [preprocess]
    raises, the second returns [False]. *)
Definition job1 : Job := mkJob ["a"; "index.md"] 1 "IMG" "image_localizer" [].
Definition job2 : Job := mkJob ["a"; "index.md"] 3 "IMG" "image_localizer" [].
Definition st_j : Processor :=
  mkProc [mkMS img_mod [job1; job2] []] false [] [] fs0 [] [] 0 0 0.
Definition pre_bad : BaseModule -> Job -> outcome :=
  fun _ j => if Nat.eqb (j_line_no j) 1 then Raised else Returned false.

End Fixtures.

(** ** The pool's invariant, and a runner for concrete schedules *)

Module SchedulerInv.
Import Scheduler.

Definition busy (t : tstate) : Prop := t = Acquired \/ exists st, t = Running st.

Record inv (delay : Z) (dom : nat -> string) (s : sched) : Prop := {
  inv_holder : forall d i, holder s d = Some i -> dom i = d /\ busy (ts s i);
  inv_busy : forall i, busy (ts s i) -> holder s (dom i) = Some i;
  inv_running : forall i st, ts s i = Running st ->
    (st <= clock s)%Z /\
    (forall r, In r (hist s) -> r_dom r = dom i -> (r_end r <= st)%Z) /\
    (forall t, last_request_time s (dom i) = Some t -> (t + delay <= st)%Z);
  inv_hist_time : forall r, In r (hist s) ->
    (r_start r <= r_end r)%Z /\ (r_end r <= clock s)%Z;
  inv_last : forall r, In r (hist s) -> r_returned r = true ->
    exists t, last_request_time s (r_dom r) = Some t /\ (r_end r <= t)%Z;
  inv_spaced : spaced delay (hist s) }.

(** One step of a concrete schedule. *)
Inductive cmd : Type :=
| Tick (k : Z)
| Acq (i : nat)
| Start (i : nat)
| Ret (i : nat)
| Raise (i : nat).

Definition tstate_is_queued (t : tstate) : bool :=
  match t with Queued => true | _ => false end.
Definition tstate_is_acquired (t : tstate) : bool :=
  match t with Acquired => true | _ => false end.

(** Runs a schedule, [None] as soon as a command is not enabled. *)
Fixpoint exec (delay : Z) (dom : nat -> string) (cs : list cmd) (s : sched)
  : option sched :=
  match cs with
  | [] => Some s
  | c :: cs' =>
      let next :=
        match c with
        | Tick k =>
            if (0 <? k)%Z
            then Some (mkSched (clock s + k) (ts s) (holder s)
                         (last_request_time s) (hist s))
            else None
        | Acq i =>
            if tstate_is_queued (ts s i) && negb (is_some (holder s (dom i)))
            then Some (mkSched (clock s) (fupd_nat (ts s) i Acquired)
                         (fupd_str (holder s) (dom i) (Some i))
                         (last_request_time s) (hist s))
            else None
        | Start i =>
            if tstate_is_acquired (ts s i)
               && match last_request_time s (dom i) with
                  | Some t => (t + delay <=? clock s)%Z
                  | None => true
                  end
            then Some (mkSched (clock s) (fupd_nat (ts s) i (Running (clock s)))
                         (holder s) (last_request_time s) (hist s))
            else None
        | Ret i =>
            match ts s i with
            | Running st =>
                Some (mkSched (clock s) (fupd_nat (ts s) i Finished)
                        (fupd_str (holder s) (dom i) None)
                        (fupd_str (last_request_time s) (dom i) (Some (clock s)))
                        (hist s ++ [mkRun i (dom i) st (clock s) true]))
            | _ => None
            end
        | Raise i =>
            match ts s i with
            | Running st =>
                Some (mkSched (clock s) (fupd_nat (ts s) i Finished)
                        (fupd_str (holder s) (dom i) None)
                        (last_request_time s)
                        (hist s ++ [mkRun i (dom i) st (clock s) false]))
            | _ => None
            end
        end in
      match next with
      | Some s' => exec delay dom cs' s'
      | None => None
      end
  end.

(** Two image jobs for [example.com] with [rate_limit_delay = 1.0 s]
    (times in milliseconds): job 0 starts at once and its [preprocess]
    raises after 100 ms; job 1 then takes the lock and starts. *)
Definition raising_schedule : list cmd :=
  [Acq 0; Start 0; Tick 100; Raise 0; Acq 1; Start 1; Tick 100; Ret 1].

End SchedulerInv.

(** The state of the run leaves document [D] alone: its content is still
    [c], it was not expanded, no detector holds a TaggedLine for it, and
    the detectors are still [bms] in their order. *)
Definition untouched (D : path) (c : list string) (bms : list BaseModule)
    (s : Processor) : Prop :=
  fs s D = Some c /\ ~ In D (expanded_files s) /\
  (forall ms pp, In ms (modules s) -> In pp (postprocess_lines ms) ->
     pp_file_path pp <> D) /\
  map ms_module (modules s) = bms.

(** How the rewrite of one document [file] ended, its content before the
    pass being [c]: either it is unchanged and an error was reported, or it
    holds the whole rewritten line sequence of what was read; and it is
    rewritten whenever its own read, write and replace succeed and no
    [postprocess] call on it raises. *)
Definition rewrite_settled (E : env) (c : option (list string)) (s' : Processor)
    (file : path) (tagged : list (BaseModule * PostprocessLine)) : Prop :=
  ((fs s' file = c /\ In (MsgPostprocessError file) (out s')) \/
   (exists lines evs new_lines,
      read_fails E file = false /\ c = Some lines /\
      rewrite_lines file (build_line_map tagged) 0 lines = (evs, Some new_lines) /\
      write_fails E file = None /\ replace_fails E file = false /\
      fs s' file = Some new_lines)) /\
  (read_fails E file = false -> write_fails E file = None ->
   replace_fails E file = false ->
   forall lines new_lines, c = Some lines ->
   snd (rewrite_lines file (build_line_map tagged) 0 lines) = Some new_lines ->
   fs s' file = Some new_lines).

(* ------------------------------------------------------------------ *)
(** ** Configuration ([config.py], [ModuleRegistry] of [core.py]) *)

Module Config.

(** A TOML value as [tomllib] returns it (dates and times are not
    modelled); a table is a [dict], its keys in insertion order. *)
Inductive cval : Type :=
| VBool (b : bool)
| VInt (z : Z)
| VFloat (q : Q)
| VStr (s : string)
| VList (l : list cval)
| VDict (d : list (string * cval)).

Definition cdict : Type := list (string * cval).

(** [d.get(k)]; [k in d] is [get k d <> None]. *)
Fixpoint get (k : string) (d : cdict) : option cval :=
  match d with
  | [] => None
  | (k', v) :: d' => if String.eqb k k' then Some v else get k d'
  end.

(** [d.get(k, default)] *)
Definition get_or (k : string) (default : cval) (d : cdict) : cval :=
  match get k d with Some v => v | None => default end.

(** [d[k] = v]: the value is replaced in place when [k] is already a
    key, the pair is appended otherwise. *)
Fixpoint set (k : string) (v : cval) (d : cdict) : cdict :=
  match d with
  | [] => [(k, v)]
  | (k', v') :: d' =>
      if String.eqb k k' then (k', v) :: d' else (k', v') :: set k v d'
  end.

(** Python truthiness of a TOML value. *)
Definition truthy (v : cval) : bool :=
  match v with
  | VBool b => b
  | VInt z => negb (Z.eqb z 0)
  | VFloat q => negb (Qeq_bool q 0)
  | VStr s => negb (String.eqb s "")
  | VList l => negb (Nat.eqb (length l) 0)
  | VDict d => negb (Nat.eqb (length d) 0)
  end.

(** The value stored by [_deep_copy_dict] for [value]: a copy of a table,
    the value itself otherwise. *)
Fixpoint copy_val (value : cval) : cval :=
  match value with
  | VDict d =>
      VDict (fold_left (fun result '(key, value) =>
                          set key (copy_val value) result) d [])
  | _ => value
  end.

(** [_deep_copy_dict] *)
Definition _deep_copy_dict (d : cdict) : cdict :=
  fold_left (fun result '(key, value) => set key (copy_val value) result) d [].

(** [merge_into (VDict override) base] is [_deep_merge_dict(base,
    override)]; the recursion is on the override value, which is a table
    at every call. *)
Fixpoint merge_into (override : cval) (base : cdict) : cdict :=
  match override with
  | VDict o =>
      fold_left (fun result '(key, value) =>
                   match get key result, value with
                   | Some (VDict r), VDict _ => set key (VDict (merge_into value r)) result
                   | _, _ => set key value result
                   end) o (_deep_copy_dict base)
  | _ => _deep_copy_dict base
  end.

(** [_deep_merge_dict] *)
Definition _deep_merge_dict (base override : cdict) : cdict :=
  merge_into (VDict override) base.

(** [DEFAULT_CONFIG] *)
Definition DEFAULT_CONFIG : cdict :=
  [("general", VDict [("verbose", VBool false); ("dry_run", VBool false)]);
   ("modules", VDict
      [("image_localizer", VDict
          [("enabled", VBool true);
           ("convert_to_webp", VBool true);
           ("max_retries", VInt 3);
           ("retry_delay", VFloat (1 # 1));
           ("retry_backoff", VFloat (2 # 1));
           ("timeout", VInt 30);
           ("allowlist", VList []);
           ("allow_subdomains", VBool false);
           ("blocklist", VList []);
           ("block_subdomains", VBool false)]);
       ("tweet_downloader", VDict
          [("enabled", VBool true);
           ("cache_max_age_days", VInt 30);
           ("defang", VBool true);
           ("lang", VStr "auto");
           ("data_dir", VStr "data/x_embeds");
           ("max_retries", VInt 3);
           ("retry_delay", VFloat (1 # 1));
           ("timeout", VInt 30)])]);
   ("worker", VDict [("max_workers", VInt 4); ("rate_limit_delay", VFloat (1 # 1))])].

(** [find_config_file]; [path_exists] is [Path.exists]. *)
Definition find_config_file (path_exists : path -> bool) (git_root : path)
  : option path :=
  let site_config := git_root ++ [".auxmark.toml"] in
  if path_exists site_config then Some site_config
  else
    let theme_config := git_root ++ ["themes"; "chaos"; ".auxmark.toml"] in
    if path_exists theme_config then Some theme_config else None.

(** The warnings [load_config] prints to stderr. *)
Inductive warning : Type :=
| WarnNotFound (p : path)
| WarnLoadFailed (p : path)
| WarnUsingDefaults.

(** [load_config]; [toml_load p] is what [tomllib.load] returns for the
    file at [p], [None] when opening or parsing it raises. *)
Definition load_config (path_exists : path -> bool)
    (toml_load : path -> option cdict)
    (config_path git_root : option path) : cdict * list warning :=
  let config := _deep_copy_dict DEFAULT_CONFIG in
  let config_path :=
    match config_path, git_root with
    | None, Some g => find_config_file path_exists g
    | _, _ => config_path
    end in
  match config_path with
  | None => (config, [])
  | Some p =>
      if negb (path_exists p) then (config, [WarnNotFound p])
      else
        match toml_load p with
        | Some user_config => (_deep_merge_dict config user_config, [])
        | None => (config, [WarnLoadFailed p; WarnUsingDefaults])
        end
  end.

(** [get_module_config]; [None] when [.get] is called on a value that is
    not a dict ([AttributeError]). *)
Definition get_module_config (config : cdict) (module_name : string)
  : option cval :=
  match get_or "modules" (VDict []) config with
  | VDict m => Some (get_or module_name (VDict []) m)
  | _ => None
  end.

(** [is_module_enabled]; the value of [enabled] is returned as it is. *)
Definition is_module_enabled (config : cdict) (module_name : string)
  : option cval :=
  match get_module_config config module_name with
  | Some (VDict module_config) =>
      Some (get_or "enabled" (VBool true) module_config)
  | _ => None
  end.

(** [ModuleRegistry.register] on the registered names, in registration
    order; [None] is the [ValueError] of a second registration. *)
Definition register (name : string) (registry : list string)
  : option (list string) :=
  if existsb (String.eqb name) registry then None
  else Some (registry ++ [name]).

(** [ModuleRegistry.instantiate_all]: each registered module with the
    [config] value it is constructed with. *)
Definition instantiate_all (registry : list string) (config : option cdict)
  : list (string * cval) :=
  map (fun name =>
         let c := match config with Some c => c | None => [] end in
         (name, get_or name (VDict []) c)) registry.

(** The module configurations [main] builds when no [--module] filter is
    given and neither [--verbose] nor [--dry-run] is set: both modules
    registered in turn, then [instantiate_all(config)] on the loaded
    configuration. *)
Definition main_module_configs (path_exists : path -> bool)
    (toml_load : path -> option cdict) (config_path git_root : option path)
  : option (list (string * cval)) :=
  let config := fst (load_config path_exists toml_load config_path git_root) in
  match register "image_localizer" [] with
  | Some r1 =>
      match register "tweet_downloader" r1 with
      | Some r2 => Some (instantiate_all r2 (Some config))
      | None => None
      end
  | None => None
  end.

(** [ImageLocalizerModule.__init__]: [self.max_retries]; [None] when
    [config.get] is called on a truthy value that is not a dict. *)
Definition image_max_retries (config : cval) : option cval :=
  if truthy config then
    match config with
    | VDict d => Some (get_or "max_retries" (VInt 3) d)
    | _ => None
    end
  else Some (VInt 3).

(** Well-formed tables, as [tomllib] builds them: the keys of every table
    reachable through tables are pairwise distinct. *)
Fixpoint wf_val (v : cval) : bool :=
  match v with
  | VDict d =>
      (fix keys_fresh (d : list (string * cval)) : bool :=
         match d with
         | [] => true
         | (k, x) :: d' =>
             negb (existsb (String.eqb k) (map fst d')) && wf_val x && keys_fresh d'
         end) d
  | _ => true
  end.

Definition wf_dict (d : cdict) : bool := wf_val (VDict d).

End Config.

(* ------------------------------------------------------------------ *)
(** ** [RateLimitedWorkerPool] helpers ([worker.py]) *)

Module Pool.

(** [_domain_locks]: each domain with the identity of its
    [threading.Lock]; [fresh] is the identity the next [threading.Lock()]
    gets. *)
Record locks : Type := mkLocks {
  domain_locks : list (string * nat);
  fresh : nat }.

Fixpoint lookup (domain : string) (d : list (string * nat)) : option nat :=
  match d with
  | [] => None
  | (k, l) :: d' => if String.eqb domain k then Some l else lookup domain d'
  end.

(** [_get_domain_lock] *)
Definition _get_domain_lock (st : locks) (domain : string) : locks * nat :=
  match lookup domain (domain_locks st) with
  | Some l => (st, l)
  | None =>
      (mkLocks (domain_locks st ++ [(domain, fresh st)]) (S (fresh st)), fresh st)
  end.

(** Successive calls of [_get_domain_lock], the locks they return. *)
Fixpoint get_locks (st : locks) (domains : list string) : locks * list nat :=
  match domains with
  | [] => (st, [])
  | d :: ds =>
      let (st1, l) := _get_domain_lock st d in
      let (st2, ls) := get_locks st1 ds in
      (st2, l :: ls)
  end.

(** A new pool: [self._domain_locks = {}]. *)
Definition no_locks : locks := mkLocks [] 0.

End Pool.

(* ------------------------------------------------------------------ *)
(** ** [ImageLocalizerModule] download helpers ([image_localizer.py]) *)

Module Image.

(** What one [request.urlopen(url, timeout=...)] and [response.read()]
    does: return the bytes, raise one of the errors the [except] clause
    names, or raise anything else. *)
Inductive net_error : Type :=
| URLError
| HTTPError (code : nat)
| TimeoutError.

Inductive attempt_outcome : Type :=
| Read
| NetError (e : net_error)
| OtherError.

(** [_should_retry_error(self, error)]; [None] when it raises.  Its
    parameter [error] hides the module [urllib.error], so its first
    expression [(error.URLError, TimeoutError)] looks up an attribute
    [URLError] on the exception object, which none of these exceptions
    has: the lookup raises before any test is made. *)
Definition _should_retry_error (e : net_error) : option bool := None.

(** How the download loop of [_download_and_convert] ends. *)
Inductive download_end : Type :=
| Downloaded (attempt : nat)   (* [break] with [image_data] set *)
| ReturnedFalse (attempt : nat)
| Raised (attempt : nat)       (* an exception leaves the method *)
| Exhausted.                    (* the loop ends, [image_data is None] *)

(** [for attempt in range(self.max_retries):] with [urlopen attempt] the
    outcome of the request made at that attempt. *)
Fixpoint download_loop (urlopen : nat -> attempt_outcome) (max_retries : nat)
    (attempts : list nat) : download_end :=
  match attempts with
  | [] => Exhausted
  | attempt :: rest =>
      match urlopen attempt with
      | Read => Downloaded attempt
      | OtherError => Raised attempt
      | NetError e =>
          match _should_retry_error e with
          | None => Raised attempt
          | Some should_retry =>
              if (attempt <? max_retries - 1) && should_retry
              then download_loop urlopen max_retries rest
              else ReturnedFalse attempt
          end
      end
  end.

Definition download (urlopen : nat -> attempt_outcome) (max_retries : nat)
  : download_end :=
  download_loop urlopen max_retries (seq 0 max_retries).

(** [f"{counter}"] *)
Definition str_nat (n : nat) : string :=
  DecimalString.NilZero.string_of_uint (Nat.to_uint n).

(** [f"{base_name}_{counter}{ext}"] *)
Definition candidate (base_name ext : string) (counter : nat) : string :=
  String.append base_name (String.append "_" (String.append (str_nat counter) ext)).

(** The [while output_path.exists():] loop, for at most [fuel] rounds. *)
Fixpoint conflict_loop (path_exists : path -> bool) (target_dir : path)
    (base_name ext : string) (counter fuel : nat) : option string :=
  match fuel with
  | O => None
  | S fuel' =>
      let output_filename :=
        String.append base_name (String.append "_" (String.append (str_nat counter) ext)) in
      if path_exists (target_dir ++ [output_filename])
      then conflict_loop path_exists target_dir base_name ext (S counter) fuel'
      else Some output_filename
  end.

(** "Handle naming conflicts with incrementing suffix": the file name the
    image is saved under. *)
Definition resolve_output_filename (path_exists : path -> bool)
    (target_dir : path) (output_filename : string) (fuel : nat)
  : option string :=
  if path_exists (target_dir ++ [output_filename]) then
    conflict_loop path_exists target_dir (stem_of output_filename)
      (suffix_of output_filename) 2 fuel
  else Some output_filename.

End Image.

(* ------------------------------------------------------------------ *)
(** ** [tweet_downloader.py]: tweet ids, the shortcode probe and
    [ScriptStripper] *)

Module Tweet.

(** [\d] and [str.isdigit] on ASCII text *)
Definition is_digit (c : ascii) : bool := Url.is_digit c.

(** [\w] on ASCII text: letters, digits and [_] *)
Definition is_word (c : ascii) : bool :=
  Url.is_alpha c || Url.is_digit c || Ascii.eqb c "_".

(** [\s] on ASCII text: [\t\n\v\f\r], [\x1c]-[\x1f] and the space *)
Definition is_space (c : ascii) : bool :=
  let n := nat_of_ascii c in
  (Nat.leb 9 n && Nat.leb n 13) || (Nat.leb 28 n && Nat.leb n 32).

Fixpoint all_digits (s : string) : bool :=
  match s with
  | EmptyString => true
  | String c s' => is_digit c && all_digits s'
  end.

(** [str.isdigit()] *)
Definition isdigit (s : string) : bool :=
  negb (String.eqb s "") && all_digits s.

(** The longest prefix whose characters satisfy [p]: what a greedy
    [p*] consumes. *)
Fixpoint span (p : ascii -> bool) (s : string) : string :=
  match s with
  | EmptyString => EmptyString
  | String c s' => if p c then String c (span p s') else EmptyString
  end.

(** The rest of [s] after the literal [p], if [s] starts with it. *)
Definition strip_prefix (p s : string) : option string :=
  if String.prefix p s
  then Some (substring (String.length p) (String.length s - String.length p) s)
  else None.

(** [p+] (greedy, at least one character): the match and the rest. *)
Definition plus (p : ascii -> bool) (s : string) : option (string * string) :=
  let m := span p s in
  if String.eqb m "" then None
  else Some (m, substring (String.length m) (String.length s - String.length m) s).

(** [p*] (greedy): the rest. *)
Definition star (p : ascii -> bool) (s : string) : string :=
  let m := span p s in
  substring (String.length m) (String.length s - String.length m) s.

(** [status/(\d+)] anchored at the start of [s]: group 1.  The greedy
    [\d+] is followed by nothing, so its longest run is the match. *)
Definition match_status (s : string) : option string :=
  match strip_prefix "status/" s with
  | Some r => option_map fst (plus is_digit r)
  | None => None
  end.

(** [/\w+/status/(\d+)] after the host: [\w+] cannot give back
    characters to the following ['/'], so only its longest run can
    match. *)
Definition match_after_host (s : string) : option string :=
  match strip_prefix "/" s with
  | Some r =>
      match plus is_word r with
      | Some (_, r') =>
          match strip_prefix "/" r' with
          | Some r'' => match_status r''
          | None => None
          end
      | None => None
      end
  | None => None
  end.

(** [(?:x\.com|twitter\.com)/\w+/status/(\d+)] anchored at the start. *)
Definition match_host_status (s : string) : option string :=
  match
    match strip_prefix "x.com" s with
    | Some r => match_after_host r
    | None => None
    end
  with
  | Some g => Some g
  | None =>
      match strip_prefix "twitter.com" s with
      | Some r => match_after_host r
      | None => None
      end
  end.

(** [re.search]: the anchored match at the leftmost position where there
    is one. *)
Fixpoint search {A} (m : string -> option A) (s : string) : option A :=
  match m s with
  | Some g => Some g
  | None =>
      match s with
      | EmptyString => None
      | String _ s' => search m s'
      end
  end.

(** [extract_tweet_id] *)
Definition extract_tweet_id (input_str : string) : option string :=
  if isdigit input_str then Some input_str
  else
    match search match_host_status input_str with
    | Some g => Some g
    | None => search match_status input_str
    end.

(** The double quote character. *)
Definition dq : string := String (ascii_of_nat 34) EmptyString.

(** [{{<\s*x\s+user="([^"]+)"\s+id="([^"]+)"\s*>}}] anchored at the start
    of [s]: groups 1 and 2.  Each quantifier is followed by a character
    it cannot match, so the greedy runs are the only candidates. *)
Definition match_shortcode (s : string) : option (string * string) :=
  let not_quote := fun c => negb (Nat.eqb (nat_of_ascii c) 34) in
  match strip_prefix "{{<" s with
  | None => None
  | Some r1 =>
      match strip_prefix "x" (star is_space r1) with
      | None => None
      | Some r2 =>
          match plus is_space r2 with
          | None => None
          | Some (_, r3) =>
              match strip_prefix (String.append "user=" dq) r3 with
              | None => None
              | Some r4 =>
                  match plus not_quote r4 with
                  | None => None
                  | Some (user, r5) =>
                      match strip_prefix dq r5 with
                      | None => None
                      | Some r6 =>
                          match plus is_space r6 with
                          | None => None
                          | Some (_, r7) =>
                              match strip_prefix (String.append "id=" dq) r7 with
                              | None => None
                              | Some r8 =>
                                  match plus not_quote r8 with
                                  | None => None
                                  | Some (id, r9) =>
                                      match strip_prefix dq r9 with
                                      | None => None
                                      | Some r10 =>
                                          match strip_prefix ">}}" (star is_space r10) with
                                          | None => None
                                          | Some _ => Some (user, id)
                                          end
                                      end
                                  end
                              end
                          end
                      end
                  end
              end
          end
      end
  end.

(** [TweetDownloaderModule.probe]; [data_dir_set] is
    [self.data_dir is not None]. *)
Definition probe (data_dir_set : bool) (line : string) : action * metadata :=
  if negb data_dir_set then (IGNORE, [])
  else
    match search match_shortcode line with
    | Some (user, tweet_id_str) =>
        match extract_tweet_id tweet_id_str with
        | Some tweet_id =>
            if String.eqb tweet_id "" then (IGNORE, [])
            else (TAG_WITH_PREPROCESS_ONLY,
                  [("user", PStr user); ("tweet_id", PStr tweet_id)])
        | None => (IGNORE, [])
        end
    | None => (IGNORE, [])
    end.

(** The callbacks [HTMLParser.feed] makes on [ScriptStripper] (the
    others, for comments, declarations and the like, do nothing); an
    attribute without a value has value [None]. *)
Inductive hevent : Type :=
| StartTag (tag : string) (attrs : list (string * option string))
| EndTag (tag : string)
| Data (data : string)
| StartEndTag (tag : string) (attrs : list (string * option string))
| OtherEvent.

Record stripper : Type := mkStripper {
  result : list string;
  skip_tag : bool }.

Definition push (x : string) (st : stripper) : stripper :=
  mkStripper (result st ++ [x]) (skip_tag st).

(** [f'{k}="{v}"'] *)
Definition render_attr (kv : string * option string) : string :=
  String.append (fst kv) (String.append "=" (String.append dq
    (String.append (match snd kv with Some v => v | None => "None" end) dq))).

(** [' '.join(...)] *)
Fixpoint join_space (l : list string) : string :=
  match l with
  | [] => ""
  | [x] => x
  | x :: l' => String.append x (String.append " " (join_space l'))
  end.

(** [[(k, v) for k, v in attrs if not k.startswith('on')]] *)
Definition sanitize_attrs (attrs : list (string * option string))
  : list (string * option string) :=
  filter (fun kv => negb (String.prefix "on" (fst kv))) attrs.

Definition is_frame (tag : string) : bool :=
  String.eqb tag "iframe" || String.eqb tag "embed".

Definition handle_starttag (tag : string) (attrs : list (string * option string))
    (st : stripper) : stripper :=
  if String.eqb tag "script" then mkStripper (result st) true
  else
    let sanitized_attrs := sanitize_attrs attrs in
    if is_frame tag then
      push (String.append "<!-- iframe removed: " (String.append tag " ")) st
    else
      match sanitized_attrs with
      | [] => push (String.append "<" (String.append tag ">")) st
      | _ =>
          let attrs_str := join_space (map render_attr sanitized_attrs) in
          push (String.append "<" (String.append tag
                  (String.append " " (String.append attrs_str ">")))) st
      end.

Definition handle_endtag (tag : string) (st : stripper) : stripper :=
  if String.eqb tag "script" then mkStripper (result st) false
  else if is_frame tag then push " -->" st
  else push (String.append "</" (String.append tag ">")) st.

Definition handle_data (data : string) (st : stripper) : stripper :=
  if negb (skip_tag st) then push data st else st.

Definition handle_startendtag (tag : string)
    (attrs : list (string * option string)) (st : stripper) : stripper :=
  if String.eqb tag "script" then st
  else if is_frame tag then
    push (String.append "<!-- self-closing " (String.append tag " removed -->")) st
  else
    match sanitize_attrs attrs with
    | [] => push (String.append "<" (String.append tag " />")) st
    | sanitized_attrs =>
        let attrs_str := join_space (map render_attr sanitized_attrs) in
        push (String.append "<" (String.append tag
                (String.append " " (String.append attrs_str " />")))) st
    end.

Definition handle (st : stripper) (e : hevent) : stripper :=
  match e with
  | StartTag tag attrs => handle_starttag tag attrs st
  | EndTag tag => handle_endtag tag st
  | Data d => handle_data d st
  | StartEndTag tag attrs => handle_startendtag tag attrs st
  | OtherEvent => st
  end.

(** [parser.feed(html)] on the callbacks it makes. *)
Definition feed (evs : list hevent) (st : stripper) : stripper :=
  fold_left handle evs st.

(** [get_sanitized_html] *)
Definition get_sanitized_html (st : stripper) : string :=
  fold_right String.append "" (result st).

(** [sanitize_html] on the callbacks [HTMLParser] makes for [html]. *)
Definition sanitize_html (evs : list hevent) : string :=
  get_sanitized_html (feed evs (mkStripper [] false)).

End Tweet.

(** [TweetDownloaderModule] as a detector: [regex = re.compile(r".*")]
    matches every line; its [postprocess(self, file_path)] takes one
    argument, so the engine's call with four raises [TypeError]. *)
Definition tweet_module (data_dir_set : bool) : BaseModule :=
  mkModule "tweet_downloader" (fun _ => true)
    (fun _ _ line => Tweet.probe data_dir_set line)
    (fun _ _ _ _ => None).

(** The modules [P] selects hold no tagged line. *)
Definition pp_free (P : BaseModule -> Prop) (mods : list ModuleState) : Prop :=
  forall ms, In ms mods -> P (ms_module ms) -> postprocess_lines ms = [].

Definition is_tweet_module (m : BaseModule) : Prop :=
  exists data_dir_set, m = tweet_module data_dir_set.

(** [{{< x user="jack" id="20" >}}] *)
Definition tweet_line : string :=
  String.append "{{< x user=" (String.append Tweet.dq (String.append "jack"
    (String.append Tweet.dq (String.append " id=" (String.append Tweet.dq
      (String.append "20" (String.append Tweet.dq " >}}"))))))).

(** A processor running [TweetDownloaderModule] alone on [post.md], a
    document made of [tweet_line]. *)
Definition st_tweet : Processor :=
  set_files [["post.md"]]
    (init_processor [tweet_module true] false
       (fun q => if path_eqb q ["post.md"] then Some [tweet_line] else None)).

(* ================================================================== *)
(** * Theorems *)

(** ** Equality and dictionaries *)

Lemma path_eqb_eq (p q : path) : path_eqb p q = true <-> p = q.
Proof.
  revert q; induction p as [|a p IH]; intros [|b q]; simpl;
    try (split; congruence).
  rewrite Bool.andb_true_iff, String.eqb_eq, IH.
  split; [intros [-> ->]; reflexivity | intros H; inversion H; auto].
Qed.

Lemma path_eqb_refl (p : path) : path_eqb p p = true.
Proof. apply path_eqb_eq; reflexivity. Qed.

Lemma path_eqb_neq (p q : path) : path_eqb p q = false <-> p <> q.
Proof.
  rewrite <- path_eqb_eq. destruct (path_eqb p q); split; congruence.
Qed.

Lemma existsb_path_eqb_false (p : path) (l : list path) :
  existsb (path_eqb p) l = false <-> ~ In p l.
Proof.
  induction l as [|q l IH]; simpl; [tauto|].
  rewrite Bool.orb_false_iff, IH, path_eqb_neq.
  split; [intros [H1 H2] [H|H]; [congruence|tauto] | intros H; split; auto].
Qed.

Lemma In_purge (p : path) (mods : list ModuleState) (ms : ModuleState) :
  In ms (purge p mods) ->
  (forall j, In j (jobs ms) -> j_file_path j <> p) /\
  (forall pp, In pp (postprocess_lines ms) -> pp_file_path pp <> p).
Proof.
  unfold purge; rewrite in_map_iff; intros [ms0 [<- _]]; simpl.
  split; intros x Hx; apply filter_In in Hx as [_ Hx];
    apply Bool.negb_true_iff, path_eqb_neq in Hx; exact Hx.
Qed.

Lemma map_module_purge (p : path) (mods : list ModuleState) :
  map ms_module (purge p mods) = map ms_module mods.
Proof. unfold purge; rewrite map_map; reflexivity. Qed.

(** ** C1: expansion purges every detector's lists *)

(** C1: when [process_file] promotes the document [p] (a real run; [p]
    becomes one of [expanded_files]), no Job and no TaggedLine of any
    detector still references [p], and only then is the new identity
    [p.parent / p.stem / index.md] appended to the worklist, as the last
    step of the call. *)
Theorem expansion_purges_old_identity (E : env) (p : path) (st : Processor) :
  dry_run st = false ->
  ~ In p (expanded_files st) ->
  In p (expanded_files (process_file E p st)) ->
  (forall ms, In ms (modules (process_file E p st)) ->
     (forall j, In j (jobs ms) -> j_file_path j <> p) /\
     (forall pp, In pp (postprocess_lines ms) -> pp_file_path pp <> p)) /\
  files_to_process (process_file E p st) = files_to_process st ++ [expand_target p] /\
  trace (process_file E p st) = trace st ++ [EvEnqueue (expand_target p)].
Proof.
  intros Hdry Hnot Hin.
  unfold process_file in *.
  pose proof Hnot as Hnot'.
  apply existsb_path_eqb_false in Hnot'; rewrite Hnot' in *.
  destruct (read_file E st p) as [lines|]; [|simpl in Hin; contradiction].
  destruct (scan_lines p 0 lines (modules st)) as [mods need].
  destruct need; [|simpl in Hin; contradiction].
  unfold expand_file in *.
  destruct (String.eqb (name p) "index.md"); [simpl in Hin; contradiction|].
  simpl in *. rewrite Hdry in *.
  destruct (mkdir_fails E (expand_dir p) || is_some (fs st (expand_dir p)));
    [simpl in Hin; contradiction|].
  destruct (git_mv_fails E p || negb (is_some (fs st p))
            || is_some (fs st (expand_target p)));
    [simpl in Hin; contradiction|].
  simpl; rewrite Hdry; simpl. split; [|split; reflexivity].
  intros ms Hms. eapply In_purge; exact Hms.
Qed.

(** ** The worker pool: mutual exclusion and spacing *)

Module SchedulerFacts.
Import Scheduler SchedulerInv.

Lemma spaced_snoc (delay : Z) (h : list run) (r : run) :
  spaced delay h ->
  (forall r1, In r1 h -> r_dom r = r_dom r1 ->
     (r_end r1 <= r_start r)%Z /\
     (r_returned r1 = true -> (r_end r1 + delay <= r_start r)%Z)) ->
  spaced delay (h ++ [r]).
Proof.
  induction h as [|a h IH]; simpl; intros Hsp Hnew.
  - split; [intros _ []|exact I].
  - destruct Hsp as [Ha Hh]. split.
    + intros r2 Hr2 Hd. apply in_app_or in Hr2 as [H|[<-|[]]].
      * apply Ha; assumption.
      * apply Hnew; auto.
    + apply IH; auto.
Qed.

Section Pool.

Variable delay : Z.
Variable dom : nat -> string.

Lemma inv_exclusive (s : sched) (i j : nat) :
  inv delay dom s -> busy (ts s i) -> busy (ts s j) -> dom i = dom j -> i = j.
Proof.
  intros Hinv Hi Hj Hd.
  apply (inv_busy _ _ _ Hinv) in Hi. apply (inv_busy _ _ _ Hinv) in Hj.
  rewrite Hd in Hi. congruence.
Qed.

Lemma inv_init (n : nat) (t0 : Z) : inv delay dom (init n t0).
Proof.
  constructor; simpl.
  - intros d i H; discriminate.
  - intros i [H|[st H]]; destruct (Nat.ltb i n); discriminate.
  - intros i st H; destruct (Nat.ltb i n); discriminate.
  - intros r [].
  - intros r [].
  - exact I.
Qed.

Lemma busy_running (st : Z) : busy (Running st).
Proof. right; eauto. Qed.

Lemma not_busy_finished : ~ busy Finished.
Proof. intros [H|[st H]]; discriminate. Qed.

Lemma not_busy_queued : ~ busy Queued.
Proof. intros [H|[st H]]; discriminate. Qed.

(** Return and raise differ only in [_last_request_time]. *)
Lemma inv_finish (s : sched) (i : nat) (st : Z) (ret : bool) :
  inv delay dom s -> ts s i = Running st ->
  inv delay dom
    (mkSched (clock s) (fupd_nat (ts s) i Finished)
       (fupd_str (holder s) (dom i) None)
       (if ret then fupd_str (last_request_time s) (dom i) (Some (clock s))
        else last_request_time s)
       (hist s ++ [mkRun i (dom i) st (clock s) ret])).
Proof.
  intros Hinv Hts.
  pose proof (inv_running _ _ _ Hinv i st Hts) as [Hst [Hend Hlast]].
  assert (Hex : forall j, j <> i -> busy (ts s j) -> dom j <> dom i).
  { intros j Hne Hb Hd. apply Hne.
    eapply inv_exclusive; eauto. rewrite Hts; apply busy_running. }
  unfold fupd_nat, fupd_str.
  constructor; simpl.
  - intros d j H. destruct (String.eqb_spec d (dom i)); [discriminate|].
    apply (inv_holder _ _ _ Hinv) in H as [Hd Hb].
    destruct (Nat.eqb_spec j i); [subst; congruence|]. auto.
  - intros j Hb. destruct (Nat.eqb_spec j i).
    + exfalso; exact (not_busy_finished Hb).
    + destruct (String.eqb_spec (dom j) (dom i)).
      * exfalso; exact (Hex j n Hb e).
      * apply (inv_busy _ _ _ Hinv); exact Hb.
  - intros j st' H. destruct (Nat.eqb_spec j i); [discriminate|].
    assert (Hb : busy (ts s j)) by (rewrite H; apply busy_running).
    pose proof (Hex j n Hb) as Hdj.
    pose proof (inv_running _ _ _ Hinv j st' H) as [H1 [H2 H3]].
    split; [exact H1|split].
    + intros r Hr Hd. apply in_app_or in Hr as [Hr|[<-|[]]]; [auto|].
      simpl in Hd. congruence.
    + intros t Ht. destruct ret; [|auto].
      destruct (String.eqb_spec (dom j) (dom i)); [contradiction|auto].
  - intros r Hr. apply in_app_or in Hr as [Hr|[<-|[]]].
    + destruct (inv_hist_time _ _ _ Hinv r Hr); lia.
    + simpl; lia.
  - intros r Hr Hret. destruct ret.
    + destruct (String.eqb_spec (r_dom r) (dom i)).
      * exists (clock s); split; [reflexivity|].
        apply in_app_or in Hr as [Hr|[<-|[]]];
          [destruct (inv_hist_time _ _ _ Hinv r Hr); lia | simpl; lia].
      * apply in_app_or in Hr as [Hr|[<-|[]]];
          [apply (inv_last _ _ _ Hinv); auto | simpl in n; congruence].
    + apply in_app_or in Hr as [Hr|[<-|[]]];
        [apply (inv_last _ _ _ Hinv); auto | discriminate].
  - apply spaced_snoc; [apply (inv_spaced _ _ _ Hinv)|].
    intros r1 Hr1 Hd; simpl in *. split.
    + apply Hend; auto.
    + intros Hret. destruct (inv_last _ _ _ Hinv r1 Hr1 Hret) as [t [Ht Hle]].
      rewrite <- Hd in Ht. specialize (Hlast t Ht). lia.
Qed.

Lemma inv_step (s s' : sched) :
  inv delay dom s -> step delay dom s s' -> inv delay dom s'.
Proof.
  intros Hinv Hstep. destruct Hstep as [s k Hk|s i Hq Hh|s i Ha Hg|s i st Hr|s i st Hr].
  - constructor; simpl.
    + apply (inv_holder _ _ _ Hinv).
    + apply (inv_busy _ _ _ Hinv).
    + intros i st H. destruct (inv_running _ _ _ Hinv i st H) as [H1 H2].
      split; [lia|exact H2].
    + intros r Hr. destruct (inv_hist_time _ _ _ Hinv r Hr); lia.
    + apply (inv_last _ _ _ Hinv).
    + apply (inv_spaced _ _ _ Hinv).
  - unfold fupd_nat, fupd_str. constructor; simpl.
    + intros d j H. destruct (String.eqb_spec d (dom i)).
      * inversion H; subst. rewrite Nat.eqb_refl. split; [reflexivity|left; reflexivity].
      * apply (inv_holder _ _ _ Hinv) in H as [Hd Hb].
        destruct (Nat.eqb_spec j i); [subst; rewrite Hq in Hb; exfalso; exact (not_busy_queued Hb)|].
        auto.
    + intros j Hb. destruct (Nat.eqb_spec j i).
      * subst. rewrite String.eqb_refl. reflexivity.
      * apply (inv_busy _ _ _ Hinv) in Hb.
        destruct (String.eqb_spec (dom j) (dom i)); [congruence|exact Hb].
    + intros j st H. destruct (Nat.eqb_spec j i); [discriminate|].
      apply (inv_running _ _ _ Hinv); exact H.
    + apply (inv_hist_time _ _ _ Hinv).
    + apply (inv_last _ _ _ Hinv).
    + apply (inv_spaced _ _ _ Hinv).
  - unfold fupd_nat. constructor; simpl.
    + intros d j H. apply (inv_holder _ _ _ Hinv) in H as [Hd Hb].
      split; [exact Hd|]. destruct (Nat.eqb_spec j i); [apply busy_running|exact Hb].
    + intros j Hb. destruct (Nat.eqb_spec j i).
      * subst. apply (inv_busy _ _ _ Hinv). rewrite Ha; left; reflexivity.
      * apply (inv_busy _ _ _ Hinv); exact Hb.
    + intros j st H. destruct (Nat.eqb_spec j i).
      * inversion H; subst. split; [lia|split].
        -- intros r Hr _. destruct (inv_hist_time _ _ _ Hinv r Hr); lia.
        -- exact Hg.
      * apply (inv_running _ _ _ Hinv); exact H.
    + apply (inv_hist_time _ _ _ Hinv).
    + apply (inv_last _ _ _ Hinv).
    + apply (inv_spaced _ _ _ Hinv).
  - exact (inv_finish s i st true Hinv Hr).
  - exact (inv_finish s i st false Hinv Hr).
Qed.

Lemma inv_reach (s0 s : sched) :
  inv delay dom s0 -> reach delay dom s0 s -> inv delay dom s.
Proof.
  intros H0 Hr. induction Hr as [|s s' Hr IH Hs]; [exact H0|].
  exact (inv_step s s' IH Hs).
Qed.

(** Two jobs of one domain are never inside [with lock:] together. *)
Lemma pool_mutual_exclusion (n : nat) (t0 : Z) (s : sched) (i j : nat) :
  reach delay dom (init n t0) s ->
  busy (ts s i) -> busy (ts s j) -> dom i = dom j -> i = j.
Proof.
  intros Hr. apply inv_exclusive. eapply inv_reach; [apply inv_init|exact Hr].
Qed.

(** Completed calls of one domain are disjoint in time, and the next call
    starts [rate_limit_delay] after the end of any earlier call of that
    domain that returned. *)
Lemma pool_history_spaced (n : nat) (t0 : Z) (s : sched) :
  reach delay dom (init n t0) s -> spaced delay (hist s).
Proof.
  intros Hr. apply (inv_spaced delay dom).
  eapply inv_reach; [apply inv_init|exact Hr].
Qed.

Lemma exec_reach (cs : list cmd) (s s' : sched) :
  exec delay dom cs s = Some s' -> reach delay dom s s'.
Proof.
  revert s. induction cs as [|c cs IH]; simpl; intros s H.
  - inversion H; constructor.
  - assert (Hgen : forall s1, reach delay dom s1 s' -> step delay dom s s1 ->
                   reach delay dom s s').
    { intros s1 Hr1 Hs1. clear -Hr1 Hs1.
      induction Hr1 as [|x y Hr IHr Hxy].
      - eapply reach_step; [constructor|exact Hs1].
      - eapply reach_step; [exact IHr|exact Hxy]. }
    destruct c as [k|i|i|i|i].
    + destruct (Z.ltb_spec 0 k); [|discriminate].
      eapply Hgen; [apply IH; exact H|constructor; assumption].
    + destruct (ts s i) eqn:Ht; simpl in H; try discriminate.
      destruct (holder s (dom i)) eqn:Hh; simpl in H; [discriminate|].
      eapply Hgen; [apply IH; exact H|constructor; assumption].
    + destruct (ts s i) eqn:Ht; simpl in H; try discriminate.
      destruct (last_request_time s (dom i)) as [t|] eqn:Hl.
      * destruct (Z.leb_spec (t + delay) (clock s)); simpl in H; [|discriminate].
        eapply Hgen; [apply IH; exact H|constructor; [assumption|]].
        intros t' Ht'; rewrite Hl in Ht'; inversion Ht'; subst; assumption.
      * eapply Hgen; [apply IH; exact H|constructor; [assumption|]].
        intros t' Ht'; rewrite Hl in Ht'; discriminate.
    + destruct (ts s i) eqn:Ht; try discriminate.
      eapply Hgen; [apply IH; exact H|eapply step_return; exact Ht].
    + destruct (ts s i) eqn:Ht; try discriminate.
      eapply Hgen; [apply IH; exact H|eapply step_raise; exact Ht].
Qed.

End Pool.

End SchedulerFacts.

(** ** C2: a raising [preprocess] is not followed by the pacing delay *)

(** C2 (refuted by a reachable schedule): two jobs for [example.com] with
    [rate_limit_delay] 1.0 s (1000 ms).  The first [preprocess] raises
    after 100 ms; the [with lock:] block releases the lock, but
    [_last_request_time] is only written after a normal return, so the
    second job passes [_wait_for_rate_limit] at once: its call starts
    100 ms after the first one, less than the configured interval. *)
Theorem raising_preprocess_breaks_spacing :
  exists s,
    Scheduler.reach 1000 (fun _ => "example.com") (Scheduler.init 2 0) s /\
    map (fun r => (Scheduler.r_thread r, Scheduler.r_dom r, Scheduler.r_start r,
                   Scheduler.r_end r, Scheduler.r_returned r)) (Scheduler.hist s)
    = [(0, "example.com", 0%Z, 100%Z, false);
       (1, "example.com", 100%Z, 200%Z, true)] /\
    (100 - 0 < 1000)%Z.
Proof.
  exists (match SchedulerInv.exec 1000 (fun _ => "example.com")
                  SchedulerInv.raising_schedule (Scheduler.init 2 0) with
          | Some s => s
          | None => Scheduler.init 2 0
          end).
  split.
  - apply (SchedulerFacts.exec_reach _ _ SchedulerInv.raising_schedule).
    vm_compute. reflexivity.
  - split; [vm_compute; reflexivity | lia].
Qed.

(** Jobs with no URL in their metadata share the [__local__] bucket. *)
Lemma no_url_local_bucket (p : path) (n : nat) (l mname : string) (md : metadata) :
  dict_get "images" md = None -> dict_get "tweet_id" md = None ->
  dict_get "url" md = None ->
  extract_domain_from_job (mkJob p n l mname md) = Some LOCAL_DOMAIN.
Proof.
  intros H1 H2 H3. unfold extract_domain_from_job, job_url; simpl.
  rewrite H1, H2, H3. reflexivity.
Qed.

(** ** Insertion-ordered dicts *)

Section Dict.
Context {K V : Type} (eqb : K -> K -> bool)
  (eqb_eq : forall a b, eqb a b = true <-> a = b).

Lemma eqb_sym_dict (a b : K) : eqb a b = eqb b a.
Proof.
  destruct (eqb a b) eqn:E1, (eqb b a) eqn:E2; auto.
  - apply eqb_eq in E1; subst.
    assert (eqb b b = true) by (apply eqb_eq; reflexivity). congruence.
  - apply eqb_eq in E2; subst.
    assert (eqb a a = true) by (apply eqb_eq; reflexivity). congruence.
Qed.

Lemma lookup_list_append (k k' : K) (v : V) (d : list (K * list V)) :
  lookup_list eqb k (dict_append eqb k' v d)
  = lookup_list eqb k d ++ (if eqb k k' then [v] else []).
Proof.
  induction d as [|[k0 vs] d IH]; simpl.
  - unfold lookup_list; simpl. destruct (eqb k k'); reflexivity.
  - destruct (eqb k' k0) eqn:E1.
    + apply eqb_eq in E1; subst k0. unfold lookup_list; simpl.
      destruct (eqb k k'); [reflexivity|rewrite app_nil_r; reflexivity].
    + unfold lookup_list in *; simpl.
      destruct (eqb k k0) eqn:E2.
      * apply eqb_eq in E2; subst k0.
        rewrite eqb_sym_dict, E1, app_nil_r. reflexivity.
      * exact IH.
Qed.

Lemma lookup_list_fold {A : Type} (key : A -> K) (val : A -> V) (k : K)
    (l : list A) (d : list (K * list V)) :
  lookup_list eqb k (fold_left (fun d x => dict_append eqb (key x) (val x) d) l d)
  = lookup_list eqb k d ++ map val (filter (fun x => eqb k (key x)) l).
Proof.
  revert d; induction l as [|x l IH]; intros d; simpl.
  - rewrite app_nil_r; reflexivity.
  - rewrite IH, lookup_list_append, <- app_assoc.
    destruct (eqb k (key x)); reflexivity.
Qed.

Lemma keys_append (k : K) (v : V) (d : list (K * list V)) :
  map fst (dict_append eqb k v d)
  = map fst d ++ (if existsb (eqb k) (map fst d) then [] else [k]).
Proof.
  induction d as [|[k0 vs] d IH]; simpl; [reflexivity|].
  destruct (eqb k k0); simpl; [rewrite app_nil_r; reflexivity|].
  rewrite IH; reflexivity.
Qed.

Lemma existsb_eqb_false (k : K) (l : list K) :
  existsb (eqb k) l = false -> ~ In k l.
Proof.
  induction l as [|a l IH]; simpl; [tauto|].
  rewrite Bool.orb_false_iff. intros [H1 H2] [H|H]; [|exact (IH H2 H)].
  subst. assert (eqb k k = true) by (apply eqb_eq; reflexivity). congruence.
Qed.

Lemma nodup_keys_append (k : K) (v : V) (d : list (K * list V)) :
  NoDup (map fst d) -> NoDup (map fst (dict_append eqb k v d)).
Proof.
  intros H. rewrite keys_append.
  destruct (existsb (eqb k) (map fst d)) eqn:E; [rewrite app_nil_r; exact H|].
  apply NoDup_app; [exact H|constructor; [intros []|constructor]|].
  intros x Hx [<-|[]]. exact (existsb_eqb_false _ _ E Hx).
Qed.

Lemma nodup_keys_fold {A : Type} (key : A -> K) (val : A -> V) (l : list A)
    (d : list (K * list V)) :
  NoDup (map fst d) ->
  NoDup (map fst (fold_left (fun d x => dict_append eqb (key x) (val x) d) l d)).
Proof.
  revert d; induction l as [|x l IH]; intros d H; simpl; [exact H|].
  apply IH, nodup_keys_append, H.
Qed.

Lemma keys_fold {A : Type} (key : A -> K) (val : A -> V) (l : list A)
    (d : list (K * list V)) (k : K) :
  In k (map fst (fold_left (fun d x => dict_append eqb (key x) (val x) d) l d)) ->
  In k (map fst d) \/ exists x, In x l /\ key x = k.
Proof.
  revert d; induction l as [|x l IH]; intros d H; simpl in *; [auto|].
  destruct (IH _ H) as [H'|[y [Hy Hk]]]; [|right; eauto].
  rewrite keys_append in H'. apply in_app_or in H' as [H'|H']; [auto|].
  destruct (existsb (eqb (key x)) (map fst d)); [destruct H'|].
  destruct H' as [<-|[]]. right; eauto.
Qed.

Lemma lookup_list_In (k : K) (vs : list V) (d : list (K * list V)) :
  NoDup (map fst d) -> In (k, vs) d -> lookup_list eqb k d = vs.
Proof.
  induction d as [|[k0 vs0] d IH]; simpl; [tauto|].
  intros Hnd [H|H]; inversion Hnd as [|? ? Hnin Hnd']; subst.
  - inversion H; subst. unfold lookup_list; simpl.
    assert (eqb k k = true) by (apply eqb_eq; reflexivity).
    rewrite H0; reflexivity.
  - unfold lookup_list in *; simpl.
    destruct (eqb k k0) eqn:E.
    + apply eqb_eq in E; subst. exfalso; apply Hnin.
      apply (in_map fst) in H; exact H.
    + apply IH; assumption.
Qed.

End Dict.

Lemma path_eqb_sym (p q : path) : path_eqb p q = path_eqb q p.
Proof. apply eqb_sym_dict, path_eqb_eq. Qed.

Lemma group_by_file_nodup (mods : list ModuleState) :
  NoDup (map fst (group_by_file mods)).
Proof.
  unfold group_by_file.
  apply (nodup_keys_fold path_eqb path_eqb_eq
           (fun mp : BaseModule * PostprocessLine => pp_file_path (snd mp))
           (fun mp => mp)).
  constructor.
Qed.

Lemma group_by_file_lookup (mods : list ModuleState) (file : path) :
  lookup_list path_eqb file (group_by_file mods)
  = filter (fun mp => path_eqb file (pp_file_path (snd mp))) (all_tagged mods).
Proof.
  unfold group_by_file.
  rewrite (lookup_list_fold path_eqb path_eqb_eq
             (fun mp : BaseModule * PostprocessLine => pp_file_path (snd mp))
             (fun mp => mp)).
  unfold lookup_list at 1; simpl. rewrite map_id. reflexivity.
Qed.

Lemma group_by_file_In (mods : list ModuleState) (file : path)
    (tagged : list (BaseModule * PostprocessLine)) :
  In (file, tagged) (group_by_file mods) ->
  tagged = filter (fun mp => path_eqb file (pp_file_path (snd mp))) (all_tagged mods).
Proof.
  intros H. rewrite <- group_by_file_lookup. symmetry.
  apply lookup_list_In; [apply path_eqb_eq|apply group_by_file_nodup|exact H].
Qed.

Lemma group_by_file_key (mods : list ModuleState) (file : path)
    (tagged : list (BaseModule * PostprocessLine)) :
  In (file, tagged) (group_by_file mods) ->
  exists ms pp, In ms mods /\ In pp (postprocess_lines ms) /\ pp_file_path pp = file.
Proof.
  intros H. apply (in_map fst) in H; simpl in H.
  unfold group_by_file in H.
  destruct (keys_fold path_eqb
              (fun mp : BaseModule * PostprocessLine => pp_file_path (snd mp))
              (fun mp => mp) _ _ _ H) as [[]|[[m pp] [Hin Hk]]].
  unfold all_tagged in Hin. apply in_concat in Hin as [l [Hl Hin]].
  apply in_map_iff in Hl as [ms [<- Hms]].
  apply in_map_iff in Hin as [pp' [Heq Hpp]]. inversion Heq; subst.
  exists ms, pp; auto.
Qed.

(** ** The rewrite of one document *)

Lemma build_line_map_lookup (tagged : list (BaseModule * PostprocessLine)) (i : nat) :
  lookup_list Nat.eqb i (build_line_map tagged)
  = map (fun mp => (fst mp, pp_metadata (snd mp)))
      (filter (fun mp => Nat.eqb i (pp_line_no (snd mp))) tagged).
Proof.
  unfold build_line_map.
  rewrite (lookup_list_fold Nat.eqb Nat.eqb_eq
             (fun mp : BaseModule * PostprocessLine => pp_line_no (snd mp))
             (fun mp => (fst mp, pp_metadata (snd mp)))).
  reflexivity.
Qed.

Lemma tags_for_filter (mods : list ModuleState) (file : path) (i : nat) :
  map (fun mp => (fst mp, pp_metadata (snd mp)))
    (filter (fun mp => Nat.eqb i (pp_line_no (snd mp)))
       (filter (fun mp => path_eqb file (pp_file_path (snd mp))) (all_tagged mods)))
  = tags_for mods file i.
Proof.
  unfold all_tagged, tags_for.
  induction mods as [|ms mods IH]; simpl; [reflexivity|].
  rewrite !filter_app, map_app, IH. f_equal.
  induction (postprocess_lines ms) as [|pp pps IHp]; simpl; [reflexivity|].
  rewrite (path_eqb_sym file).
  destruct (path_eqb (pp_file_path pp) file); simpl; [|exact IHp].
  rewrite (Nat.eqb_sym i).
  destruct (Nat.eqb (pp_line_no pp) i); simpl; rewrite IHp; reflexivity.
Qed.

Lemma compose_spec_none (file : path) (i : nat) (tags : list (BaseModule * metadata)) :
  fold_left (fun acc (mm : BaseModule * metadata) =>
               match acc with
               | Some l => m_postprocess (fst mm) file i l (snd mm)
               | None => None
               end) tags None = None.
Proof. induction tags; simpl; auto. Qed.

Lemma apply_tags_compose (file : path) (i : nat)
    (tags : list (BaseModule * metadata)) (l : string) :
  snd (apply_tags file i tags l) = compose_spec file i tags l.
Proof.
  unfold compose_spec. revert l.
  induction tags as [|[m md] tags IH]; intros l; simpl; [reflexivity|].
  destruct (m_postprocess m file i l md) as [l'|] eqn:E.
  - destruct (apply_tags file i tags l') as [evs r] eqn:Ea. simpl.
    rewrite <- IH, Ea. reflexivity.
  - simpl. symmetry; apply compose_spec_none.
Qed.

Lemma rewrite_step (file : path) (lm : list (nat * list (BaseModule * metadata)))
    (k : nat) (l : string) :
  match dict_lookup Nat.eqb k lm with
  | Some tags => apply_tags file k tags l
  | None => ([], Some l)
  end = apply_tags file k (lookup_list Nat.eqb k lm) l.
Proof. unfold lookup_list. destruct (dict_lookup Nat.eqb k lm); reflexivity. Qed.

Lemma rewrite_lines_spec (mods : list ModuleState) (file : path)
    (lm : list (nat * list (BaseModule * metadata))) (k : nat) (lines : list string) :
  (forall i, lookup_list Nat.eqb i lm = tags_for mods file i) ->
  snd (rewrite_lines file lm k lines) = spec_rewrite mods file k lines.
Proof.
  intros Hlm. revert k. induction lines as [|l ls IH]; intros k; simpl; [reflexivity|].
  rewrite rewrite_step, Hlm.
  pose proof (apply_tags_compose file k (tags_for mods file k) l) as Hc.
  destruct (apply_tags file k (tags_for mods file k) l) as [e1 r1].
  simpl in Hc; rewrite <- Hc.
  destruct r1 as [l'|]; [|reflexivity].
  specialize (IH (S k)).
  destruct (rewrite_lines file lm (S k) ls) as [e2 r2]. simpl in *.
  rewrite IH; reflexivity.
Qed.

(** C5: for a document [file] of the grouping, the rewritten line
    sequence is the spec's: every line [i] is fed through the
    [postprocess] of each detector tagging it, in the order the detectors
    are registered in [self.modules], each output being the next input;
    a line no detector tagged is kept as is ([tags_for] is then empty). *)
Theorem rewrite_composes_in_registration_order (mods : list ModuleState)
    (file : path) (tagged : list (BaseModule * PostprocessLine))
    (lines : list string) :
  In (file, tagged) (group_by_file mods) ->
  snd (rewrite_lines file (build_line_map tagged) 0 lines)
  = spec_rewrite mods file 0 lines.
Proof.
  intros H. apply rewrite_lines_spec. intros i.
  rewrite build_line_map_lookup, (group_by_file_In _ _ _ H).
  apply tags_for_filter.
Qed.

Lemma rewrite_composes_in_registration_order_witness :
  In (Fixtures.b_md, Fixtures.tagged_b) (group_by_file Fixtures.mods_b) /\
  snd (rewrite_lines Fixtures.b_md (build_line_map Fixtures.tagged_b) 0 ["X"; "plain"])
  = spec_rewrite Fixtures.mods_b Fixtures.b_md 0 ["X"; "plain"] /\
  spec_rewrite Fixtures.mods_b Fixtures.b_md 0 ["X"; "plain"] = Some ["X!!"; "plain"].
Proof.
  assert (H : In (Fixtures.b_md, Fixtures.tagged_b) (group_by_file Fixtures.mods_b))
    by (vm_compute; left; reflexivity).
  split; [exact H|split].
  - exact (rewrite_composes_in_registration_order _ _ _ ["X"; "plain"] H).
  - vm_compute; reflexivity.
Defined.

Lemma rewrite_lines_ext (file : path) (lm1 lm2 : list (nat * list (BaseModule * metadata)))
    (k : nat) (lines : list string) :
  (forall i, k <= i < k + length lines ->
     lookup_list Nat.eqb i lm1 = lookup_list Nat.eqb i lm2) ->
  rewrite_lines file lm1 k lines = rewrite_lines file lm2 k lines.
Proof.
  revert k. induction lines as [|l ls IH]; intros k H; simpl; [reflexivity|].
  rewrite !rewrite_step, (H k) by (simpl; lia).
  destruct (apply_tags file k (lookup_list Nat.eqb k lm2) l) as [e1 [l'|]]; [|reflexivity].
  rewrite (IH (S k)); [reflexivity|].
  intros i Hi; apply H; simpl; lia.
Qed.

Lemma rewrite_lines_nil (file : path) (k : nat) (lines : list string) :
  rewrite_lines file [] k lines = ([], Some lines).
Proof.
  revert k; induction lines as [|l ls IH]; intros k; simpl; [reflexivity|].
  rewrite IH; reflexivity.
Qed.

Lemma build_line_map_snapshot (tagged : list (BaseModule * PostprocessLine))
    (snap : PostprocessLine -> string) :
  build_line_map
    (map (fun mp => (fst mp, mkPP (pp_file_path (snd mp)) (pp_line_no (snd mp))
                                 (snap (snd mp)) (pp_metadata (snd mp)))) tagged)
  = build_line_map tagged.
Proof.
  unfold build_line_map. generalize (@nil (nat * list (BaseModule * metadata))).
  induction tagged as [|mp t IH]; intros d; simpl; [reflexivity|]. apply IH.
Qed.

(** C10: in the rewrite pass a TaggedLine is matched by its line index
    only: dropping every TaggedLine whose index is not an index of the
    re-read line sequence changes nothing, the stored line text is never
    looked at, and when no TaggedLine is in range the document's lines
    come back unchanged with no [postprocess] call and no error. *)
Theorem rewrite_matches_by_index_only (file : path)
    (tagged : list (BaseModule * PostprocessLine)) (lines : list string) :
  rewrite_lines file (build_line_map tagged) 0 lines
  = rewrite_lines file
      (build_line_map (filter (fun mp => pp_line_no (snd mp) <? length lines) tagged))
      0 lines /\
  (forall snap : PostprocessLine -> string,
     rewrite_lines file
       (build_line_map
          (map (fun mp => (fst mp, mkPP (pp_file_path (snd mp)) (pp_line_no (snd mp))
                                       (snap (snd mp)) (pp_metadata (snd mp)))) tagged))
       0 lines
     = rewrite_lines file (build_line_map tagged) 0 lines) /\
  ((forall mp, In mp tagged -> length lines <= pp_line_no (snd mp)) ->
   rewrite_lines file (build_line_map tagged) 0 lines = ([], Some lines)).
Proof.
  split; [|split].
  - apply rewrite_lines_ext. intros i Hi. rewrite !build_line_map_lookup.
    f_equal. induction tagged as [|mp t IH]; simpl; [reflexivity|].
    destruct (Nat.eqb_spec i (pp_line_no (snd mp))) as [E|E].
    + rewrite (proj2 (Nat.ltb_lt _ _)) by lia. simpl.
      rewrite (proj2 (Nat.eqb_eq _ _) E), IH; reflexivity.
    + destruct (pp_line_no (snd mp) <? length lines); simpl;
        [rewrite (proj2 (Nat.eqb_neq _ _) E)|]; exact IH.
  - intros snap. rewrite build_line_map_snapshot. reflexivity.
  - intros Hall. rewrite <- (rewrite_lines_nil file 0 lines).
    apply rewrite_lines_ext. intros i Hi. rewrite build_line_map_lookup.
    unfold lookup_list; simpl.
    induction tagged as [|mp t IH]; simpl; [reflexivity|].
    rewrite (proj2 (Nat.eqb_neq i (pp_line_no (snd mp)))).
    + apply IH. intros mp' H'; apply Hall; right; exact H'.
    + specialize (Hall mp (or_introl eq_refl)). lia.
Qed.

Lemma rewrite_matches_by_index_only_witness :
  rewrite_lines Fixtures.b_md (build_line_map Fixtures.tagged_stale) 0 ["X"; "plain"]
  = ([], Some ["X"; "plain"]).
Proof.
  apply (proj2 (proj2 (rewrite_matches_by_index_only Fixtures.b_md
                          Fixtures.tagged_stale ["X"; "plain"]))).
  intros mp [<-|[]]. simpl. lia.
Defined.

Lemma expansion_purges_old_identity_witness :
  In Fixtures.c_md (expanded_files (process_file Fixtures.E_ok Fixtures.c_md Fixtures.st_c)) /\
  (forall ms, In ms (modules (process_file Fixtures.E_ok Fixtures.c_md Fixtures.st_c)) ->
     (forall j, In j (jobs ms) -> j_file_path j <> Fixtures.c_md) /\
     (forall pp, In pp (postprocess_lines ms) -> pp_file_path pp <> Fixtures.c_md)) /\
  files_to_process (process_file Fixtures.E_ok Fixtures.c_md Fixtures.st_c)
  = [expand_target Fixtures.c_md] /\
  trace (process_file Fixtures.E_ok Fixtures.c_md Fixtures.st_c)
  = [EvEnqueue (expand_target Fixtures.c_md)].
Proof.
  assert (Hin : In Fixtures.c_md
                  (expanded_files (process_file Fixtures.E_ok Fixtures.c_md Fixtures.st_c)))
    by (vm_compute; left; reflexivity).
  split; [exact Hin|].
  exact (expansion_purges_old_identity Fixtures.E_ok Fixtures.c_md Fixtures.st_c
           eq_refl (fun H => H) Hin).
Defined.

(** ** Promotion of a document already named [index.md] *)

Lemma name_index (d : list string) : name (d ++ ["index.md"]) = "index.md".
Proof. unfold name. apply last_last. Qed.

(** C7 (amended): promoting a document named [index.md] is refused with
    a reported warning and is not fatal, but [expand_file] returns [None]
    for it, exactly as it does for an ordinary failure of [git mv] or of
    [mkdir] (the [except Exception] branch): the caller cannot tell the
    outcomes apart, only the printed message differs. *)
Theorem expand_index_signal_equals_failure (E : env) (st : Processor)
    (d : list string) (p : path) :
  expand_file E st (d ++ ["index.md"])
  = (None, log (MsgAlreadyIndex (d ++ ["index.md"])) st) /\
  (name p <> "index.md" -> dry_run st = false ->
   mkdir_fails E (expand_dir p) = false -> fs st (expand_dir p) = None ->
   git_mv_fails E p = true ->
   expand_file E st p = (None, log (MsgGitMvFailed p) st)) /\
  (name p <> "index.md" -> dry_run st = false ->
   mkdir_fails E (expand_dir p) = true \/ is_some (fs st (expand_dir p)) = true ->
   expand_file E st p = (None, log (MsgExpandError p) st)).
Proof.
  split; [|split].
  - unfold expand_file. rewrite name_index. reflexivity.
  - intros Hn Hdry Hmk Hdir Hgit. unfold expand_file.
    rewrite (proj2 (String.eqb_neq _ _) Hn), Hdry, Hmk, Hdir, Hgit. reflexivity.
  - intros Hn Hdry Hmk. unfold expand_file. cbv zeta.
    rewrite (proj2 (String.eqb_neq _ _) Hn), Hdry.
    destruct Hmk as [Hmk|Hmk]; rewrite Hmk; [reflexivity|].
    rewrite orb_true_r. reflexivity.
Qed.

Lemma expand_index_signal_equals_failure_witness :
  fst (expand_file Fixtures.E_ok Fixtures.st_real ["a"; "index.md"]) = None /\
  expand_file Fixtures.E_git_fails Fixtures.st_real Fixtures.a_md
  = (None, log (MsgGitMvFailed Fixtures.a_md) Fixtures.st_real) /\
  expand_file Fixtures.E_mkdir_fails Fixtures.st_real Fixtures.a_md
  = (None, log (MsgExpandError Fixtures.a_md) Fixtures.st_real).
Proof.
  split; [|split].
  - change ["a"; "index.md"] with (["a"] ++ ["index.md"]).
    rewrite (proj1 (expand_index_signal_equals_failure Fixtures.E_ok Fixtures.st_real
                      ["a"] Fixtures.a_md)). reflexivity.
  - apply (proj1 (proj2 (expand_index_signal_equals_failure Fixtures.E_git_fails
                           Fixtures.st_real [] Fixtures.a_md)));
      vm_compute; try reflexivity; discriminate.
  - apply (proj2 (proj2 (expand_index_signal_equals_failure Fixtures.E_mkdir_fails
                           Fixtures.st_real [] Fixtures.a_md)));
      [vm_compute; discriminate|reflexivity|left; reflexivity].
Defined.

(** The two outcomes carry the same return value. *)
Lemma expand_index_vs_failure_counterexample :
  fst (expand_file Fixtures.E_ok Fixtures.st_real ["a"; "index.md"])
  = fst (expand_file Fixtures.E_git_fails Fixtures.st_real Fixtures.a_md).
Proof. vm_compute. reflexivity. Qed.

(** ** The rewrite pass: temporary file, replace, failures *)

Lemma rfind_append (c : ascii) (x y : string) :
  Py.rfind c (String.append x y)
  = match Py.rfind c y with
    | Some i => Some (String.length x + i)
    | None => Py.rfind c x
    end.
Proof.
  induction x as [|a x IH]; simpl.
  - destruct (Py.rfind c y); reflexivity.
  - rewrite IH. destruct (Py.rfind c y); [reflexivity|].
    destruct (Py.rfind c x); reflexivity.
Qed.

Lemma length_append_str (x y : string) :
  String.length (String.append x y) = String.length x + String.length y.
Proof. induction x; simpl; auto. Qed.

Lemma substring_append_r (x y : string) (n : nat) :
  substring (String.length x) n (String.append x y) = substring 0 n y.
Proof. induction x; simpl; auto. Qed.

Lemma suffix_tmp (x : string) : suffix_of (String.append x ".tmp") <> ".md".
Proof.
  unfold suffix_of. rewrite rfind_append. simpl (Py.rfind "." ".tmp"). cbv iota. rewrite Nat.add_0_r.
  match goal with |- context [if ?b then _ else _] => destruct b end;
    [|discriminate].
  unfold Py.drop. rewrite length_append_str, substring_append_r.
  replace (String.length x + String.length ".tmp" - String.length x) with 4 by (simpl; lia).
  discriminate.
Qed.

Lemma with_suffix_tmp_neq (f q : path) : suffix q = ".md" -> q <> with_suffix f ".tmp".
Proof.
  intros H ->. unfold suffix, name, with_suffix in H. rewrite last_last in H.
  exact (suffix_tmp _ H).
Qed.

Lemma rewrite_file_frame (E : env) (s : Processor) (f : path)
    (t : list (BaseModule * PostprocessLine)) :
  dry_run (rewrite_file E s f t) = dry_run s /\
  (exists l, out (rewrite_file E s f t) = out s ++ l) /\
  (forall q, q <> f -> q <> with_suffix f ".tmp" -> fs (rewrite_file E s f t) q = fs s q).
Proof.
  unfold rewrite_file.
  destruct (read_file E s f) as [lines|].
  2: { split; [reflexivity|split; [eexists; reflexivity|reflexivity]]. }
  destruct (rewrite_lines f (build_line_map t) 0 lines) as [evs [nl|]].
  2: { split; [reflexivity|split; [eexists; reflexivity|reflexivity]]. }
  destruct (write_fails E f) as [k|]; [|destruct (replace_fails E f)];
    (split; [reflexivity|split;
       [first [exists []; simpl; rewrite app_nil_r; reflexivity
              | eexists; simpl; reflexivity]|]]);
    intros q H1 H2; simpl; unfold upd;
    repeat rewrite (proj2 (path_eqb_neq _ _)) by assumption; reflexivity.
Qed.

Lemma rewrite_file_self (E : env) (s : Processor) (f : path)
    (t : list (BaseModule * PostprocessLine)) :
  suffix f = ".md" -> rewrite_settled E (fs s f) (rewrite_file E s f t) f t.
Proof.
  intros Hmd. pose proof (with_suffix_tmp_neq f f Hmd) as Htmp.
  assert (Hu : forall g v, upd g (with_suffix f ".tmp") v f = g f)
    by (intros g v; unfold upd; rewrite (proj2 (path_eqb_neq _ _) Htmp); reflexivity).
  assert (Hf : forall g v, upd g f v f = v)
    by (intros g v; unfold upd; rewrite path_eqb_refl; reflexivity).
  unfold rewrite_settled, rewrite_file, read_file.
  destruct (read_fails E f) eqn:Hr.
  { split; [left; simpl; split; [reflexivity|apply in_or_app; right; left; reflexivity]|].
    discriminate. }
  destruct (fs s f) as [lines|] eqn:Hs.
  2: { split; [left; simpl; split; [exact Hs|apply in_or_app; right; left; reflexivity]|].
       discriminate. }
  destruct (rewrite_lines f (build_line_map t) 0 lines) as [evs [nl|]] eqn:Hrw.
  2: { split; [left; simpl; split; [exact Hs|apply in_or_app; right; left; reflexivity]|].
       intros _ _ _ l2 nl2 [= <-] Hc. rewrite Hrw in Hc; discriminate. }
  destruct (write_fails E f) as [k|] eqn:Hw.
  { split; [left; simpl; split; [rewrite Hu; exact Hs|apply in_or_app; right; left; reflexivity]|].
    discriminate. }
  destruct (replace_fails E f) eqn:Hp.
  { split; [left; simpl; split; [rewrite Hu; exact Hs|apply in_or_app; right; left; reflexivity]|].
    intros _ _ H; discriminate. }
  split.
  - right. exists lines, evs, nl. simpl. rewrite Hf. auto 6.
  - intros _ _ _ l2 nl2 [= <-] Hc. rewrite Hrw in Hc. simpl in Hc. injection Hc as <-.
    simpl. rewrite Hf. reflexivity.
Qed.

Lemma settled_transfer (E : env) (c : option (list string)) (s1 s2 : Processor)
    (f : path) (t : list (BaseModule * PostprocessLine)) :
  rewrite_settled E c s1 f t -> fs s2 f = fs s1 f ->
  (exists l, out s2 = out s1 ++ l) -> rewrite_settled E c s2 f t.
Proof.
  intros [[[H1 H2]|H] HB] Hfs [l Hout];
    unfold rewrite_settled; rewrite Hfs, Hout; split; auto.
  left; split; [exact H1|apply in_or_app; left; exact H2].
Qed.

Section RewritePass.
Variable E : env.

Lemma postprocess_step_real (s : Processor) (f : path)
    (t : list (BaseModule * PostprocessLine)) :
  dry_run s = false -> postprocess_step E s (f, t) = rewrite_file E s f t.
Proof. intros H. unfold postprocess_step. rewrite H. reflexivity. Qed.

Lemma fold_rewrite_frame (gs : list (path * list (BaseModule * PostprocessLine)))
    (s : Processor) :
  dry_run s = false ->
  dry_run (fold_left (postprocess_step E) gs s) = false /\
  (exists l, out (fold_left (postprocess_step E) gs s) = out s ++ l) /\
  (forall q, suffix q = ".md" -> ~ In q (map fst gs) ->
     fs (fold_left (postprocess_step E) gs s) q = fs s q).
Proof.
  revert s; induction gs as [|[f0 t0] gs IH]; intros s Hdry; simpl.
  - split; [exact Hdry|split; [exists []; rewrite app_nil_r; reflexivity|reflexivity]].
  - rewrite postprocess_step_real by exact Hdry.
    destruct (rewrite_file_frame E s f0 t0) as (Hd1 & [l1 Ho1] & Hf1).
    destruct (IH (rewrite_file E s f0 t0)) as (Hd2 & [l2 Ho2] & Hf2); [congruence|].
    split; [exact Hd2|split].
    + exists (l1 ++ l2). rewrite Ho2, Ho1, app_assoc. reflexivity.
    + intros q Hq Hnin. rewrite Hf2 by (auto; intros H; apply Hnin; right; exact H).
      apply Hf1; [intros ->; apply Hnin; left; reflexivity|].
      apply with_suffix_tmp_neq, Hq.
Qed.

Lemma fold_rewrite_settled (gs : list (path * list (BaseModule * PostprocessLine)))
    (s : Processor) :
  dry_run s = false -> NoDup (map fst gs) ->
  (forall f t, In (f, t) gs -> suffix f = ".md") ->
  forall f t, In (f, t) gs -> rewrite_settled E (fs s f) (fold_left (postprocess_step E) gs s) f t.
Proof.
  revert s; induction gs as [|[f0 t0] gs IH]; intros s Hdry Hnd Hmd f t Hin;
    [destruct Hin|].
  simpl. rewrite postprocess_step_real by exact Hdry.
  inversion Hnd as [|? ? Hnin Hnd']; subst.
  destruct (rewrite_file_frame E s f0 t0) as (Hd1 & [l1 Ho1] & Hf1).
  destruct Hin as [Heq|Hin].
  - injection Heq as <- <-.
    destruct (fold_rewrite_frame gs (rewrite_file E s f0 t0)) as (_ & Ho2 & Hf2);
      [congruence|].
    apply (settled_transfer _ _ (rewrite_file E s f0 t0)).
    + apply rewrite_file_self, (Hmd f0 t0), in_eq.
    + apply Hf2; [apply (Hmd f0 t0), in_eq|exact Hnin].
    + exact Ho2.
  - assert (Hf : fs (rewrite_file E s f0 t0) f = fs s f).
    { apply Hf1.
      - intros ->. apply Hnin, (in_map fst _ _ Hin).
      - apply with_suffix_tmp_neq, (Hmd f t), in_cons, Hin. }
    rewrite <- Hf. apply IH; auto; [congruence|].
    intros f1 t1 H1; apply (Hmd f1 t1), in_cons, H1.
Qed.

End RewritePass.

(** C4: with a real run, every document of the rewrite grouping ends the
    pass in one of two states: unchanged with an error reported, or holding
    the whole rewritten line sequence of the lines read (the only write to
    the document is the [replace] of a fully written temporary file; a
    partial write only ever reaches the temporary file).  When reading the
    document, writing its temporary file or replacing it fails, the
    document is unchanged and the error is reported.  Whether a
    document is rewritten depends only on its own read, write and replace
    and its own [postprocess] calls: a failure on another document does not
    stop it.  Documents are the [.md] files the scanner yields, so no
    temporary [.tmp] file is a document. *)
Theorem rewrite_pass_isolates_failures (E : env) (st : Processor) :
  dry_run st = false ->
  (forall ms pp, In ms (modules st) -> In pp (postprocess_lines ms) ->
     suffix (pp_file_path pp) = ".md") ->
  forall file tagged, In (file, tagged) (group_by_file (modules st)) ->
  ((fs (run_postprocessing E st) file = fs st file /\
    In (MsgPostprocessError file) (out (run_postprocessing E st))) \/
   (exists lines evs new_lines,
      read_fails E file = false /\ fs st file = Some lines /\
      rewrite_lines file (build_line_map tagged) 0 lines = (evs, Some new_lines) /\
      write_fails E file = None /\ replace_fails E file = false /\
      fs (run_postprocessing E st) file = Some new_lines)) /\
  (read_fails E file = true \/ fs st file = None \/ write_fails E file <> None \/
   replace_fails E file = true ->
   fs (run_postprocessing E st) file = fs st file /\
   In (MsgPostprocessError file) (out (run_postprocessing E st))) /\
  (read_fails E file = false -> write_fails E file = None ->
   replace_fails E file = false ->
   forall lines new_lines, fs st file = Some lines ->
   snd (rewrite_lines file (build_line_map tagged) 0 lines) = Some new_lines ->
   fs (run_postprocessing E st) file = Some new_lines).
Proof.
  intros Hdry Hmd file tagged Hin.
  assert (Hkeys : forall f t, In (f, t) (group_by_file (modules st)) -> suffix f = ".md").
  { intros f t H. destruct (group_by_file_key _ _ _ H) as (ms & pp & Hms & Hpp & <-).
    exact (Hmd ms pp Hms Hpp). }
  pose proof (group_by_file_nodup (modules st)) as Hnd.
  unfold run_postprocessing.
  destruct (group_by_file (modules st)) as [|g gs] eqn:G; [destruct Hin|].
  destruct (fold_rewrite_settled E (g :: gs) st Hdry Hnd Hkeys file tagged Hin)
    as [Hset Hok].
  split; [exact Hset|split; [|exact Hok]].
  intros Hfail. destruct Hset as [Hl|(lines & evs & nl & Hr & Hs & _ & Hw & Hp & _)];
    [exact Hl|].
  exfalso. destruct Hfail as [H|[H|[H|H]]]; congruence.
Qed.

Lemma rewrite_pass_isolates_failures_witness :
  fs (run_postprocessing Fixtures.E_write_b Fixtures.st_w) Fixtures.d_md = Some ["X!"] /\
  In (MsgPostprocessError Fixtures.b_md)
     (out (run_postprocessing Fixtures.E_write_b Fixtures.st_w)) /\
  fs (run_postprocessing Fixtures.E_write_b Fixtures.st_w) Fixtures.b_md
  = fs Fixtures.st_w Fixtures.b_md.
Proof.
  assert (Hmd : forall ms pp, In ms (modules Fixtures.st_w) ->
                  In pp (postprocess_lines ms) -> suffix (pp_file_path pp) = ".md").
  { intros ms pp [<-|[]] Hpp. destruct Hpp as [<-|[<-|[]]]; vm_compute; reflexivity. }
  assert (Hd : In (Fixtures.d_md, [(Fixtures.tag_mod, Fixtures.pp_d0)])
                 (group_by_file (modules Fixtures.st_w)))
    by (vm_compute; right; left; reflexivity).
  assert (Hb : In (Fixtures.b_md, [(Fixtures.tag_mod, Fixtures.pp_b0)])
                 (group_by_file (modules Fixtures.st_w)))
    by (vm_compute; left; reflexivity).
  split; [|split].
  - apply (proj2 (proj2 (rewrite_pass_isolates_failures Fixtures.E_write_b Fixtures.st_w
                    eq_refl Hmd _ _ Hd)) eq_refl eq_refl eq_refl ["X"]);
      vm_compute; reflexivity.
  - apply (proj1 (proj2 (rewrite_pass_isolates_failures Fixtures.E_write_b Fixtures.st_w
                           eq_refl Hmd _ _ Hb))).
    right; right; left. discriminate.
  - apply (proj1 (proj2 (rewrite_pass_isolates_failures Fixtures.E_write_b Fixtures.st_w
                           eq_refl Hmd _ _ Hb))).
    right; right; left. discriminate.
Defined.

(** ** Preprocessing outcomes and the rewrite pass *)

Lemma core_log_fold (ms : list message) (s : Processor) :
  core (fold_left (fun st' m => log m st') ms s) = core s.
Proof. revert s; induction ms as [|m ms IH]; intros s; simpl; [reflexivity|]. rewrite IH. reflexivity. Qed.

Lemma out_log_fold (ms : list message) (s : Processor) :
  out (fold_left (fun st' m => log m st') ms s) = out s ++ ms.
Proof.
  revert s; induction ms as [|m ms IH]; intros s; simpl; [rewrite app_nil_r; reflexivity|].
  rewrite IH; simpl; rewrite <- app_assoc; reflexivity.
Qed.

Lemma run_preprocessing_core (pre1 pre2 : BaseModule -> Job -> outcome) (st : Processor) :
  option_map core (run_preprocessing pre1 st) = option_map core (run_preprocessing pre2 st).
Proof.
  unfold run_preprocessing.
  destruct (Nat.eqb _ 0); [reflexivity|].
  destruct (dry_run st); [reflexivity|].
  destruct (submit_all (all_jobs (modules st))) as [evs [|]]; [|reflexivity].
  destruct (collect pre1 _) as [[c1 f1] ms1], (collect pre2 _) as [[c2 f2] ms2].
  simpl. f_equal.
  change (core (fold_left (fun st' m => log m st') ms1 (emit evs st))
          = core (fold_left (fun st' m => log m st') ms2 (emit evs st))).
  rewrite !core_log_fold. reflexivity.
Qed.

Lemma rewrite_file_core (E : env) (s1 s2 : Processor) (f : path)
    (t : list (BaseModule * PostprocessLine)) :
  core s1 = core s2 -> core (rewrite_file E s1 f t) = core (rewrite_file E s2 f t).
Proof.
  destruct s1, s2; unfold core; simpl; intros H.
  injection H as <- <- <- <- <-.
  unfold rewrite_file, read_file; simpl.
  destruct (read_fails E f); [reflexivity|].
  destruct (fs0 f) as [lines|]; [|reflexivity].
  destruct (rewrite_lines f (build_line_map t) 0 lines) as [evs [nl|]]; [|reflexivity].
  destruct (write_fails E f); [reflexivity|].
  destruct (replace_fails E f); reflexivity.
Qed.

Lemma run_postprocessing_core (E : env) (s1 s2 : Processor) :
  core s1 = core s2 -> core (run_postprocessing E s1) = core (run_postprocessing E s2).
Proof.
  intros H. unfold run_postprocessing.
  assert (Hm : modules s1 = modules s2) by (unfold core in H; congruence).
  rewrite Hm. destruct (group_by_file (modules s2)) as [|g gs]; [exact H|].
  generalize (g :: gs). intros l. revert s1 s2 H Hm.
  induction l as [|ft l IH]; intros s1 s2 H Hm; simpl; [exact H|].
  assert (Hd : dry_run s1 = dry_run s2) by (unfold core in H; congruence).
  apply IH.
  - unfold postprocess_step. rewrite Hd. destruct (dry_run s2).
    + unfold core in *; simpl; exact H.
    + apply rewrite_file_core, H.
  - unfold postprocess_step. rewrite Hd. destruct (dry_run s2); simpl; [exact Hm|].
    pose proof (rewrite_file_core E s1 s2 (fst ft) (snd ft) H) as Hc.
    unfold core in Hc; congruence.
Qed.

Lemma collect_spec (pre : BaseModule -> Job -> outcome) (l : list (BaseModule * Job))
    (c f : nat) (ms : list message) :
  collect pre l = (c, f, ms) ->
  c + f = length l /\ f = count_failed pre l /\
  (forall m j, In (m, j) l -> pre m j = Raised ->
     In (MsgPreprocessError (j_file_path j) (j_line_no j)) ms).
Proof.
  revert c f ms; unfold count_failed.
  induction l as [|[m j] l IH]; intros c f ms H; simpl in H.
  - injection H as <- <- <-. split; [reflexivity|split; [reflexivity|intros ? ? []]].
  - destruct (collect pre l) as [[c0 f0] ms0].
    destruct (IH c0 f0 ms0 eq_refl) as (Hn & Hf & Hr).
    simpl. destruct (pre m j) as [[|]|] eqn:Hp; injection H as <- <- <-.
    + split; [simpl; lia|split; [exact Hf|]].
      intros m' j' [Heq|Hin] Hraise; [injection Heq as -> ->; congruence|eauto].
    + split; [simpl; lia|split; [simpl; rewrite Hf; reflexivity|]].
      intros m' j' [Heq|Hin] Hraise; [injection Heq as -> ->; congruence|eauto].
    + split; [simpl; lia|split; [simpl; rewrite Hf; reflexivity|]].
      intros m' j' [Heq|Hin] Hraise; [injection Heq as -> ->; left; reflexivity|].
      right; eauto.
Qed.

(** C9: the outcome of [preprocess] (returning [True], returning [False]
    or raising) changes nothing of the rewrite pass: for any two outcome
    assignments the whole run ends with the same detector lists, file
    system and trace (which records every [postprocess] call), so no
    rewrite work is filtered or skipped by them; the outcomes are only
    counted, every job is counted, and each raising job is reported with
    its document and line. *)
Theorem preprocess_outcomes_only_counted (E : env) (fuel : nat) (files : list path)
    (st : Processor) :
  (forall pre1 pre2 : BaseModule -> Job -> outcome,
     option_map core (process_all E pre1 fuel files st)
     = option_map core (process_all E pre2 fuel files st)) /\
  (forall (pre : BaseModule -> Job -> outcome) (s s' : Processor),
     dry_run s = false -> all_jobs (modules s) <> [] ->
     run_preprocessing pre s = Some s' ->
     pre_completed s' + pre_failed s' = length (all_jobs (modules s)) /\
     pre_failed s' = count_failed pre (all_jobs (modules s)) /\
     (forall m j, In (m, j) (all_jobs (modules s)) -> pre m j = Raised ->
        In (MsgPreprocessError (j_file_path j) (j_line_no j)) (out s'))).
Proof.
  split.
  - intros pre1 pre2. unfold process_all.
    destruct (scan_all E fuel (set_files files st)) as [s1|]; [|reflexivity].
    pose proof (run_preprocessing_core pre1 pre2 s1) as H.
    destruct (run_preprocessing pre1 s1) as [a|], (run_preprocessing pre2 s1) as [b|];
      simpl in *; try discriminate; [|reflexivity].
    injection H. intros. f_equal. apply run_postprocessing_core. unfold core. congruence.
  - intros pre s s' Hdry Hne H. unfold run_preprocessing in H.
    destruct (Nat.eqb (length (all_jobs (modules s))) 0) eqn:Hz.
    { apply Nat.eqb_eq, length_zero_iff_nil in Hz. contradiction. }
    rewrite Hdry in H.
    destruct (submit_all (all_jobs (modules s))) as [evs [|]]; [|discriminate].
    destruct (collect pre (all_jobs (modules s))) as [[c f] ms] eqn:Hc.
    injection H as <-. simpl.
    destruct (collect_spec _ _ _ _ _ Hc) as (Hn & Hf & Hr).
    split; [exact Hn|split; [exact Hf|]].
    intros m j Hin Hraise. rewrite out_log_fold. apply in_or_app; right; eauto.
Qed.

Lemma preprocess_outcomes_only_counted_witness :
  exists s', run_preprocessing Fixtures.pre_bad Fixtures.st_j = Some s' /\
    pre_completed s' + pre_failed s' = 2 /\
    In (MsgPreprocessError ["a"; "index.md"] 1) (out s').
Proof.
  eexists. split; [reflexivity|].
  destruct (proj2 (preprocess_outcomes_only_counted Fixtures.E_ok 0 [] Fixtures.st_j)
              Fixtures.pre_bad Fixtures.st_j _ eq_refl ltac:(discriminate) eq_refl)
    as (Hn & _ & Hr).
  split; [exact Hn|].
  apply (Hr Fixtures.img_mod Fixtures.job1); [left; reflexivity|reflexivity].
Defined.

(** ** Order of the phases and of the worklist *)

Lemma pops_app (a b : list event) : pops (a ++ b) = pops a ++ pops b.
Proof. induction a as [|[] a IH]; simpl; rewrite ?IH; reflexivity. Qed.

Lemma enqueues_app (a b : list event) : enqueues (a ++ b) = enqueues a ++ enqueues b.
Proof. induction a as [|[] a IH]; simpl; rewrite ?IH; reflexivity. Qed.

Lemma expand_file_queue (E : env) (s : Processor) (p : path) :
  trace (snd (expand_file E s p)) = trace s /\
  files_to_process (snd (expand_file E s p)) = files_to_process s /\
  dry_run (snd (expand_file E s p)) = dry_run s.
Proof.
  unfold expand_file; cbv zeta.
  destruct (String.eqb (name p) "index.md"); [simpl; auto|].
  destruct (dry_run s) eqn:Hd; [simpl; auto|].
  repeat match goal with |- context [if ?b then _ else _] => destruct b end;
    simpl; auto.
Qed.

Lemma process_file_queue (E : env) (p : path) (s : Processor) :
  (trace (process_file E p s) = trace s /\
   files_to_process (process_file E p s) = files_to_process s) \/
  (exists q, trace (process_file E p s) = trace s ++ [EvEnqueue q] /\
             files_to_process (process_file E p s) = files_to_process s ++ [q]).
Proof.
  unfold process_file.
  destruct (existsb _ _); [left; auto|].
  destruct (read_file E s p) as [lines|]; [|left; auto].
  destruct (scan_lines p 0 lines (modules s)) as [mods [|]]; [|left; auto].
  destruct (expand_file_queue E (set_modules mods s) p) as (Ht & Hf & Hd).
  destruct (expand_file E (set_modules mods s) p) as [[nf|] s2]; simpl in *;
    [|left; auto].
  destruct (negb (dry_run s2)); [|left; auto].
  right. exists nf. simpl. rewrite Ht, Hf. auto.
Qed.

Lemma scan_all_fifo (E : env) (files0 : list path) (fuel : nat) (s s' : Processor) :
  forallb is_scan_event (trace s) = true ->
  pops (trace s) ++ files_to_process s = files0 ++ enqueues (trace s) ->
  scan_all E fuel s = Some s' ->
  forallb is_scan_event (trace s') = true /\
  pops (trace s') = files0 ++ enqueues (trace s') /\ files_to_process s' = [].
Proof.
  revert s; induction fuel as [|fuel IH]; intros s Hsc Hq H; simpl in H;
    destruct (files_to_process s) as [|p rest] eqn:Hf; try rewrite Hf in Hq.
  - injection H as <-. rewrite app_nil_r in Hq. auto.
  - discriminate.
  - injection H as <-. rewrite app_nil_r in Hq. auto.
  - apply IH in H; [exact H| |].
    + destruct (process_file_queue E p (emit [EvPop p] (set_files rest s)))
        as [[Ht _]|(q & Ht & _)]; simpl; rewrite Ht; simpl;
        rewrite ?forallb_app, Hsc; reflexivity.
    + destruct (process_file_queue E p (emit [EvPop p] (set_files rest s)))
        as [[Ht Hfl]|(q & Ht & Hfl)]; simpl; rewrite Ht, Hfl; simpl;
        rewrite ?pops_app, ?enqueues_app; simpl.
      * rewrite !app_nil_r, <- !app_assoc. simpl. exact Hq.
      * rewrite !app_nil_r, <- !app_assoc. simpl.
        rewrite app_comm_cons, (app_assoc (pops (trace s))), Hq, <- app_assoc.
        reflexivity.
Qed.

Lemma submit_all_events (l : list (BaseModule * Job)) :
  forallb is_submit_event (fst (submit_all l)) = true.
Proof.
  induction l as [|[m j] l IH]; simpl; [reflexivity|].
  destruct (extract_domain_from_job j); [|reflexivity].
  destruct (submit_all l) as [evs ok]; simpl in *. exact IH.
Qed.

Lemma trace_dry_fold (l : list (BaseModule * Job)) (s : Processor) :
  trace (fold_left (fun st' (mj : BaseModule * Job) =>
                      log (MsgDryPreprocess (j_file_path (snd mj)) (j_line_no (snd mj))) st')
           l s) = trace s.
Proof. revert s; induction l as [|mj l IH]; intros s; simpl; [|rewrite IH]; reflexivity. Qed.

Lemma run_preprocessing_trace (pre : BaseModule -> Job -> outcome) (s s' : Processor) :
  run_preprocessing pre s = Some s' ->
  exists sub, trace s' = trace s ++ sub /\ forallb is_submit_event sub = true.
Proof.
  unfold run_preprocessing. intros H.
  destruct (Nat.eqb _ 0).
  { injection H as <-. exists []. rewrite app_nil_r. auto. }
  destruct (dry_run s).
  { injection H as <-. exists []. simpl. rewrite trace_dry_fold, app_nil_r. auto. }
  pose proof (submit_all_events (all_jobs (modules s))) as He.
  destruct (submit_all (all_jobs (modules s))) as [evs [|]]; [|discriminate].
  destruct (collect pre _) as [[c f] ms]. injection H as <-.
  exists evs. split; [|exact He]. simpl.
  pose proof (core_log_fold ms (emit evs s)) as Hc. unfold core in Hc.
  simpl in Hc. congruence.
Qed.

Lemma apply_tags_events (file : path) (i : nat) (tags : list (BaseModule * metadata))
    (l : string) :
  forallb is_postprocess_event (fst (apply_tags file i tags l)) = true.
Proof.
  revert l; induction tags as [|[m md] tags IH]; intros l; simpl; [reflexivity|].
  destruct (m_postprocess m file i l md) as [l'|]; [|reflexivity].
  specialize (IH l'). destruct (apply_tags file i tags l'). simpl in *. exact IH.
Qed.

Lemma rewrite_lines_events (file : path) (lm : list (nat * list (BaseModule * metadata)))
    (k : nat) (lines : list string) :
  forallb is_postprocess_event (fst (rewrite_lines file lm k lines)) = true.
Proof.
  revert k; induction lines as [|l ls IH]; intros k; simpl; [reflexivity|].
  rewrite rewrite_step.
  pose proof (apply_tags_events file k (lookup_list Nat.eqb k lm) l) as Ha.
  destruct (apply_tags file k (lookup_list Nat.eqb k lm) l) as [e1 [l'|]]; [|exact Ha].
  specialize (IH (S k)). destruct (rewrite_lines file lm (S k) ls) as [e2 r2].
  simpl in *. rewrite forallb_app, Ha, IH. reflexivity.
Qed.

Lemma rewrite_file_trace (E : env) (s : Processor) (f : path)
    (t : list (BaseModule * PostprocessLine)) :
  exists pp, trace (rewrite_file E s f t) = trace s ++ pp /\
             forallb is_postprocess_event pp = true.
Proof.
  unfold rewrite_file.
  destruct (read_file E s f) as [lines|].
  2: { exists []; rewrite app_nil_r; auto. }
  pose proof (rewrite_lines_events f (build_line_map t) 0 lines) as He.
  destruct (rewrite_lines f (build_line_map t) 0 lines) as [evs [nl|]]; simpl in He.
  - destruct (write_fails E f); [|destruct (replace_fails E f)]; exists evs; auto.
  - exists evs; auto.
Qed.

Lemma run_postprocessing_trace (E : env) (s : Processor) :
  exists pp, trace (run_postprocessing E s) = trace s ++ pp /\
             forallb is_postprocess_event pp = true.
Proof.
  unfold run_postprocessing.
  destruct (group_by_file (modules s)) as [|g gs]; [exists []; rewrite app_nil_r; auto|].
  generalize (g :: gs); intros l. revert s.
  induction l as [|ft l IH]; intros s; simpl; [exists []; rewrite app_nil_r; auto|].
  destruct (IH (postprocess_step E s ft)) as (pp2 & H2 & E2).
  rewrite H2. unfold postprocess_step.
  destruct (dry_run s).
  - exists pp2. auto.
  - destruct (rewrite_file_trace E s (fst ft) (snd ft)) as (pp1 & H1 & E1).
    exists (pp1 ++ pp2). rewrite H1, app_assoc, forallb_app, E1, E2. auto.
Qed.

(** C8: a run that starts with an empty trace and terminates has a trace
    made of three blocks in this order: the scan (pops and enqueues of the
    worklist), then the submission of the preprocessing jobs, then the
    [postprocess] calls; and in the scan block the documents are popped in
    exactly the order of the initial worklist followed by the re-enqueued
    documents in the order they were enqueued (first in, first out). *)
Theorem scan_fifo_before_preprocessing (E : env) (pre : BaseModule -> Job -> outcome)
    (fuel : nat) (files : list path) (st st' : Processor) :
  trace st = [] ->
  process_all E pre fuel files st = Some st' ->
  exists sc sub pp,
    trace st' = sc ++ sub ++ pp /\
    forallb is_scan_event sc = true /\
    forallb is_submit_event sub = true /\
    forallb is_postprocess_event pp = true /\
    pops sc = files ++ enqueues sc.
Proof.
  intros H0 H. unfold process_all in H.
  destruct (scan_all E fuel (set_files files st)) as [s1|] eqn:Hs; [|discriminate].
  destruct (run_preprocessing pre s1) as [s2|] eqn:Hp; [|discriminate].
  injection H as <-.
  destruct (scan_all_fifo E files fuel (set_files files st) s1) as (Hsc & Hq & _); simpl;
    [rewrite H0; reflexivity|rewrite H0; simpl; rewrite app_nil_r; reflexivity|exact Hs|].
  destruct (run_preprocessing_trace pre s1 s2 Hp) as (sub & Ht2 & Hsub).
  destruct (run_postprocessing_trace E s2) as (pp & Ht3 & Hpp).
  exists (trace s1), sub, pp.
  rewrite Ht3, Ht2, app_assoc. auto.
Qed.

Lemma scan_fifo_before_preprocessing_witness :
  match process_all Fixtures.E_ok Fixtures.pre_ok 10 [Fixtures.a_md] Fixtures.st_real with
  | Some st' =>
      exists sc sub pp,
        trace st' = sc ++ sub ++ pp /\
        forallb is_scan_event sc = true /\
        forallb is_submit_event sub = true /\
        forallb is_postprocess_event pp = true /\
        pops sc = [Fixtures.a_md] ++ enqueues sc
  | None => False
  end.
Proof.
  destruct (process_all Fixtures.E_ok Fixtures.pre_ok 10 [Fixtures.a_md] Fixtures.st_real)
    as [st'|] eqn:H.
  - exact (scan_fifo_before_preprocessing Fixtures.E_ok Fixtures.pre_ok 10
             [Fixtures.a_md] Fixtures.st_real st' eq_refl H).
  - vm_compute in H. discriminate.
Defined.

(** ** Documents no detector acts on *)

Lemma dispatch_module (p : path) (k : nat) (l : string) (ms : ModuleState)
    (r : action * metadata) :
  ms_module (fst (dispatch p k l ms r)) = ms_module ms.
Proof. destruct r as [[] md]; reflexivity. Qed.

Lemma dispatch_pp (p : path) (k : nat) (l : string) (ms : ModuleState)
    (r : action * metadata) (pp : PostprocessLine) :
  In pp (postprocess_lines (fst (dispatch p k l ms r))) ->
  In pp (postprocess_lines ms) \/ pp_file_path pp = p.
Proof.
  destruct r as [[] md]; simpl; auto; intros H;
    apply in_app_or in H as [H|[<-|[]]]; auto.
Qed.

Lemma scan_line_modules (p : path) (k : nat) (l : string) (mods : list ModuleState) :
  map ms_module (fst (scan_line p k l mods)) = map ms_module mods.
Proof.
  induction mods as [|ms mods IH]; simpl; [reflexivity|].
  assert (Hm : ms_module (fst (if m_regex (ms_module ms) l
                                then dispatch p k l ms (m_probe (ms_module ms) p k l)
                                else (ms, false))) = ms_module ms)
    by (destruct (m_regex _ _); [apply dispatch_module|reflexivity]).
  destruct (if m_regex (ms_module ms) l then _ else _) as [ms' e1].
  destruct (scan_line p k l mods) as [rest' e2]. simpl in *. congruence.
Qed.

Lemma scan_lines_modules (p : path) (k : nat) (lines : list string)
    (mods : list ModuleState) :
  map ms_module (fst (scan_lines p k lines mods)) = map ms_module mods.
Proof.
  revert k mods; induction lines as [|l ls IH]; intros k mods; simpl; [reflexivity|].
  pose proof (scan_line_modules p k l mods) as H1.
  destruct (scan_line p k l mods) as [mods1 e1].
  specialize (IH (S k) mods1).
  destruct (scan_lines p (S k) ls mods1) as [mods2 e2]. simpl in *. congruence.
Qed.

Lemma scan_line_pp (p : path) (k : nat) (l : string) (mods : list ModuleState)
    (ms' : ModuleState) (pp : PostprocessLine) :
  In ms' (fst (scan_line p k l mods)) -> In pp (postprocess_lines ms') ->
  (exists ms, In ms mods /\ In pp (postprocess_lines ms)) \/ pp_file_path pp = p.
Proof.
  induction mods as [|ms mods IH]; simpl; [intros []|].
  assert (Hd : forall pp0, In pp0 (postprocess_lines
                 (fst (if m_regex (ms_module ms) l
                       then dispatch p k l ms (m_probe (ms_module ms) p k l)
                       else (ms, false)))) ->
                 In pp0 (postprocess_lines ms) \/ pp_file_path pp0 = p)
    by (intros pp0; destruct (m_regex _ _); [apply dispatch_pp|auto]).
  destruct (if m_regex (ms_module ms) l then _ else _) as [ms1 e1].
  destruct (scan_line p k l mods) as [rest' e2] eqn:Hs. simpl in *.
  intros [<-|Hin] Hpp.
  - destruct (Hd pp Hpp) as [H|H]; [left; exists ms; auto|auto].
  - destruct (IH Hin Hpp) as [(ms0 & H1 & H2)|H]; [left; exists ms0; auto|auto].
Qed.

Lemma scan_lines_pp (p : path) (k : nat) (lines : list string) (mods : list ModuleState)
    (ms' : ModuleState) (pp : PostprocessLine) :
  In ms' (fst (scan_lines p k lines mods)) -> In pp (postprocess_lines ms') ->
  (exists ms, In ms mods /\ In pp (postprocess_lines ms)) \/ pp_file_path pp = p.
Proof.
  revert k mods ms'; induction lines as [|l ls IH]; intros k mods ms'; simpl;
    [intros H1 H2; left; exists ms'; auto|].
  destruct (scan_line p k l mods) as [mods1 e1] eqn:Hs1.
  destruct (scan_lines p (S k) ls mods1) as [mods2 e2] eqn:Hs2. simpl.
  intros Hin Hpp.
  pose proof (IH (S k) mods1 ms') as H. rewrite Hs2 in H.
  destruct (H Hin Hpp) as [(ms1 & H1 & H2)|H']; [|auto].
  pose proof (scan_line_pp p k l mods ms1 pp) as H3. rewrite Hs1 in H3.
  exact (H3 H1 H2).
Qed.

Lemma purge_pp (p : path) (mods : list ModuleState) (ms' : ModuleState)
    (pp : PostprocessLine) :
  In ms' (purge p mods) -> In pp (postprocess_lines ms') ->
  exists ms, In ms mods /\ In pp (postprocess_lines ms).
Proof.
  unfold purge; rewrite in_map_iff; intros [ms [<- Hms]] Hpp; simpl in Hpp.
  apply filter_In in Hpp as [Hpp _]. exists ms; auto.
Qed.

Section Untouched.
Variables (E : env) (D : path) (c : list string) (bms : list BaseModule).
Hypothesis Hign : forall m n l, In m bms -> nth_error c n = Some l ->
  m_regex m l = true -> fst (m_probe m D n l) = IGNORE.

Lemma untouched_fields (s s' : Processor) :
  untouched D c bms s -> fs s' = fs s -> expanded_files s' = expanded_files s ->
  modules s' = modules s -> untouched D c bms s'.
Proof. unfold untouched; intros H -> -> ->; exact H. Qed.

Lemma scan_line_ignore (k : nat) (l : string) (mods : list ModuleState) :
  (forall ms, In ms mods -> In (ms_module ms) bms) -> nth_error c k = Some l ->
  scan_line D k l mods = (mods, false).
Proof.
  intros Hm Hk. induction mods as [|ms mods IH]; simpl; [reflexivity|].
  rewrite IH by (intros ms' H; apply Hm; right; exact H).
  destruct (m_regex (ms_module ms) l) eqn:Hr; [|reflexivity].
  pose proof (Hign (ms_module ms) k l (Hm ms (or_introl eq_refl)) Hk Hr) as Hi.
  destruct (m_probe (ms_module ms) D k l) as [a md]. simpl in Hi; subst a.
  reflexivity.
Qed.

Lemma scan_lines_ignore (lines : list string) (k : nat) (mods : list ModuleState) :
  (forall ms, In ms mods -> In (ms_module ms) bms) ->
  (forall n l, nth_error lines n = Some l -> nth_error c (k + n) = Some l) ->
  scan_lines D k lines mods = (mods, false).
Proof.
  revert k; induction lines as [|l ls IH]; intros k Hm Hn; simpl; [reflexivity|].
  rewrite scan_line_ignore; [|exact Hm|].
  - rewrite IH; [reflexivity|exact Hm|].
    intros n l' H. replace (S k + n) with (k + S n) by lia. apply (Hn (S n)), H.
  - rewrite <- (Nat.add_0_r k). apply (Hn 0); reflexivity.
Qed.

Lemma expand_file_untouched (s : Processor) (p : path) :
  p <> D -> untouched D c bms s ->
  untouched D c bms (snd (expand_file E s p)) /\
  modules (snd (expand_file E s p)) = modules s /\
  dry_run (snd (expand_file E s p)) = dry_run s /\
  files_to_process (snd (expand_file E s p)) = files_to_process s.
Proof.
  intros HpD Hu. unfold expand_file; cbv zeta.
  destruct (String.eqb (name p) "index.md");
    [simpl; split; [eapply untouched_fields; eauto|auto]|].
  destruct (dry_run s) eqn:Hd;
    [simpl; split; [eapply untouched_fields; eauto|auto]|].
  destruct (mkdir_fails E (expand_dir p) || is_some (fs s (expand_dir p)));
    [simpl; split; [eapply untouched_fields; eauto|auto]|].
  destruct (git_mv_fails E p || negb (is_some (fs s p)) || is_some (fs s (expand_target p)))
    eqn:Hg; [simpl; split; [eapply untouched_fields; eauto|auto]|].
  simpl. split; [|auto].
  destruct Hu as (Hc & Hx & Hq & Hb).
  assert (HtD : expand_target p <> D).
  { intros <-. rewrite Hc in Hg. rewrite !Bool.orb_true_r in Hg. discriminate. }
  unfold untouched; simpl. split; [|split; [|auto]].
  - unfold upd. rewrite (proj2 (path_eqb_neq _ _) (not_eq_sym HtD)),
                        (proj2 (path_eqb_neq _ _) (not_eq_sym HpD)). exact Hc.
  - intros H. apply in_app_or in H as [H|[H|[]]]; [exact (Hx H)|exact (HpD H)].
Qed.

Lemma process_file_untouched (p : path) (s : Processor) :
  untouched D c bms s -> untouched D c bms (process_file E p s).
Proof.
  intros Hu. unfold process_file.
  destruct (existsb (path_eqb p) (expanded_files s)); [exact Hu|].
  destruct (read_file E s p) as [lines|] eqn:Hr; [|eapply untouched_fields; eauto].
  assert (Hmods : forall ms, In ms (modules s) -> In (ms_module ms) bms).
  { intros ms H. destruct Hu as (_ & _ & _ & <-). apply in_map, H. }
  destruct (scan_lines p 0 lines (modules s)) as [mods e] eqn:Hs.
  assert (Hm : untouched D c bms (set_modules mods s) /\ (p = D -> e = false)).
  { destruct (list_eq_dec string_dec p D) as [->|HpD].
    - unfold read_file in Hr. destruct (read_fails E D); [discriminate|].
      destruct Hu as (Hc & Hx & Hq & Hb). rewrite Hc in Hr. injection Hr as Hl; subst lines.
      rewrite scan_lines_ignore in Hs by (auto; intros n l H; exact H).
      injection Hs as <- <-. split; [|auto].
      unfold untouched; simpl; auto.
    - split; [|intros H; contradiction].
      pose proof (scan_lines_modules p 0 lines (modules s)) as Hmm.
      rewrite Hs in Hmm. simpl in Hmm.
      destruct Hu as (Hc & Hx & Hq & Hb).
      unfold untouched; simpl. split; [exact Hc|split; [exact Hx|split]].
      + intros ms' pp Hin Hpp.
        pose proof (scan_lines_pp p 0 lines (modules s) ms' pp) as H.
        rewrite Hs in H. destruct (H Hin Hpp) as [(ms & H1 & H2)|H'];
          [exact (Hq ms pp H1 H2)|rewrite H'; exact HpD].
      + rewrite Hmm; exact Hb. }
  destruct Hm as [Hm HeD].
  destruct e; [|exact Hm].
  assert (HpD : p <> D) by (intros H; specialize (HeD H); discriminate).
  destruct (expand_file_untouched (set_modules mods s) p HpD Hm) as (Hu2 & Hm2 & _ & _).
  destruct (expand_file E (set_modules mods s) p) as [[nf|] s2]; simpl in *; [|exact Hu2].
  destruct (negb (dry_run s2)); [|exact Hu2].
  destruct Hu2 as (Hc & Hx & Hq & Hb).
  unfold untouched; simpl. split; [exact Hc|split; [exact Hx|split]].
  - intros ms' pp Hin Hpp. destruct (purge_pp _ _ _ _ Hin Hpp) as (ms & H1 & H2).
    exact (Hq ms pp H1 H2).
  - rewrite map_module_purge. exact Hb.
Qed.

End Untouched.

Lemma scan_all_untouched (E : env) (D : path) (c : list string) (bms : list BaseModule)
    (Hign : forall m n l, In m bms -> nth_error c n = Some l ->
              m_regex m l = true -> fst (m_probe m D n l) = IGNORE)
    (fuel : nat) (s s' : Processor) :
  untouched D c bms s -> scan_all E fuel s = Some s' -> untouched D c bms s'.
Proof.
  revert s; induction fuel as [|fuel IH]; intros s Hu H; simpl in H;
    destruct (files_to_process s) as [|p rest]; try discriminate;
    [injection H as <-; exact Hu|injection H as <-; exact Hu|].
  refine (IH _ _ H).
  pose proof (process_file_untouched E D c bms Hign p (emit [EvPop p] (set_files rest s)))
    as Hp.
  assert (Hu' : untouched D c bms (emit [EvPop p] (set_files rest s)))
    by (apply (untouched_fields D c bms s); auto).
  specialize (Hp Hu'). apply (untouched_fields D c bms _ _ Hp); reflexivity.
Qed.

Lemma log_fold_fields {A : Type} (g : A -> message) (l : list A) (s : Processor) :
  let s' := fold_left (fun st' x => log (g x) st') l s in
  modules s' = modules s /\ fs s' = fs s /\ expanded_files s' = expanded_files s /\
  dry_run s' = dry_run s.
Proof.
  revert s; induction l as [|x l IH]; intros s; simpl; [auto|].
  destruct (IH (log (g x) s)) as (H1 & H2 & H3 & H4). simpl in *. auto.
Qed.

Lemma run_preprocessing_fields (pre : BaseModule -> Job -> outcome) (s s' : Processor) :
  run_preprocessing pre s = Some s' ->
  modules s' = modules s /\ fs s' = fs s /\ expanded_files s' = expanded_files s /\
  dry_run s' = dry_run s.
Proof.
  unfold run_preprocessing. intros H.
  destruct (Nat.eqb _ 0); [injection H as <-; auto|].
  destruct (dry_run s) eqn:Hd.
  { injection H as <-. simpl.
    pose proof (log_fold_fields (fun mj : BaseModule * Job =>
                  MsgDryPreprocess (j_file_path (snd mj)) (j_line_no (snd mj)))
                  (all_jobs (modules s)) s) as Hl.
    simpl in Hl. rewrite Hd in Hl. exact Hl. }
  destruct (submit_all (all_jobs (modules s))) as [evs [|]]; [|discriminate].
  destruct (collect pre _) as [[c f] ms]. injection H as <-. simpl.
  pose proof (log_fold_fields (fun m => m) ms (emit evs s)) as Hl.
  simpl in Hl. rewrite Hd in Hl. exact Hl.
Qed.

Lemma rewrite_file_fields (E : env) (s : Processor) (f : path)
    (t : list (BaseModule * PostprocessLine)) :
  modules (rewrite_file E s f t) = modules s /\
  expanded_files (rewrite_file E s f t) = expanded_files s.
Proof.
  unfold rewrite_file.
  destruct (read_file E s f) as [lines|]; [|auto].
  destruct (rewrite_lines f (build_line_map t) 0 lines) as [evs [nl|]]; [|auto].
  destruct (write_fails E f); [|destruct (replace_fails E f)]; auto.
Qed.

Lemma run_postprocessing_untouched (E : env) (s : Processor) (D : path) :
  suffix D = ".md" -> ~ In D (map fst (group_by_file (modules s))) ->
  modules (run_postprocessing E s) = modules s /\
  expanded_files (run_postprocessing E s) = expanded_files s /\
  fs (run_postprocessing E s) D = fs s D.
Proof.
  intros Hmd. unfold run_postprocessing.
  destruct (group_by_file (modules s)) as [|g gs]; [auto|].
  generalize (g :: gs); intros l. revert s.
  induction l as [|ft l IH]; intros s Hnin; simpl; [auto|].
  destruct (IH (postprocess_step E s ft)) as (H1 & H2 & H3);
    [intros H; apply Hnin; right; exact H|].
  rewrite H1, H2, H3. unfold postprocess_step.
  destruct (dry_run s); [simpl; auto|].
  destruct (rewrite_file_fields E s (fst ft) (snd ft)) as [Hm Hx].
  destruct (rewrite_file_frame E s (fst ft) (snd ft)) as (_ & _ & Hf).
  split; [exact Hm|split; [exact Hx|]].
  apply Hf; [intros ->; apply Hnin; left; reflexivity|apply with_suffix_tmp_neq, Hmd].
Qed.

Lemma untouched_not_grouped (D : path) (c : list string) (bms : list BaseModule)
    (s : Processor) :
  untouched D c bms s -> ~ In D (map fst (group_by_file (modules s))).
Proof.
  intros (_ & _ & Hq & _) H. apply in_map_iff in H as [[f t] [Hf Hin]]. simpl in Hf; subst f.
  destruct (group_by_file_key _ _ _ Hin) as (ms & pp & H1 & H2 & H3).
  exact (Hq ms pp H1 H2 H3).
Qed.

(** C6: if, for every line of a [.md] document [D], every detector whose
    pattern matches the line probes it as [IGNORE], then after a complete
    run [D] still has its original content, was never expanded, and is
    not a document of the rewrite grouping. *)
Theorem ignored_document_pristine (E : env) (pre : BaseModule -> Job -> outcome)
    (fuel : nat) (files : list path) (bms : list BaseModule) (dry : bool)
    (fs0 : fsys) (D : path) (c : list string) (st' : Processor) :
  fs0 D = Some c -> suffix D = ".md" ->
  (forall m n l, In m bms -> nth_error c n = Some l ->
     m_regex m l = true -> fst (m_probe m D n l) = IGNORE) ->
  process_all E pre fuel files (init_processor bms dry fs0) = Some st' ->
  fs st' D = Some c /\ ~ In D (expanded_files st') /\
  ~ In D (map fst (group_by_file (modules st'))).
Proof.
  intros Hc Hmd Hign H. unfold process_all in H.
  destruct (scan_all E fuel (set_files files (init_processor bms dry fs0))) as [s1|] eqn:Hs;
    [|discriminate].
  destruct (run_preprocessing pre s1) as [s2|] eqn:Hp; [|discriminate].
  injection H as <-.
  assert (Hu1 : untouched D c bms s1).
  { apply (scan_all_untouched E D c bms Hign fuel
             (set_files files (init_processor bms dry fs0)) s1); [|exact Hs].
    unfold untouched; simpl. split; [exact Hc|split; [intros []|split]].
    - intros ms pp Hin. apply in_map_iff in Hin as [m [<- _]]. intros [].
    - rewrite map_map. apply map_id. }
  destruct (run_preprocessing_fields pre s1 s2 Hp) as (Hm & Hf & Hx & _).
  assert (Hu2 : untouched D c bms s2) by (apply (untouched_fields D c bms s1); auto).
  pose proof (untouched_not_grouped D c bms s2 Hu2) as Hng.
  destruct (run_postprocessing_untouched E s2 D Hmd Hng) as (Hm3 & Hx3 & Hf3).
  destruct Hu2 as (Hc2 & Hx2 & _).
  rewrite Hm3, Hx3, Hf3. auto.
Qed.

Lemma ignored_document_pristine_witness :
  match process_all Fixtures.E_ok Fixtures.pre_ok 10 [Fixtures.a_md; Fixtures.d_md]
          (init_processor [Fixtures.img_mod] false Fixtures.fs2) with
  | Some st' =>
      fs st' Fixtures.d_md = Some ["X"] /\ ~ In Fixtures.d_md (expanded_files st') /\
      ~ In Fixtures.d_md (map fst (group_by_file (modules st')))
  | None => False
  end.
Proof.
  destruct (process_all Fixtures.E_ok Fixtures.pre_ok 10 [Fixtures.a_md; Fixtures.d_md]
              (init_processor [Fixtures.img_mod] false Fixtures.fs2)) as [st'|] eqn:H.
  - apply (ignored_document_pristine Fixtures.E_ok Fixtures.pre_ok 10
             [Fixtures.a_md; Fixtures.d_md] [Fixtures.img_mod] false Fixtures.fs2
             Fixtures.d_md ["X"] st'); [reflexivity|reflexivity| |exact H].
    intros m n l [<-|[]] Hn Hr. destruct n as [|[|n]]; simpl in Hn;
      try discriminate; injection Hn as <-; discriminate.
  - vm_compute in H. discriminate.
Defined.

(** ** Dry-run and real run *)

Lemma dispatch_flag (p : path) (k : nat) (l : string) (ms : ModuleState)
    (r : action * metadata) :
  snd (dispatch p k l ms r) = true -> fst r = EXPAND.
Proof. destruct r as [[] md]; simpl; congruence. Qed.

Lemma scan_line_noexp (p : path) (k : nat) (l : string) (mods : list ModuleState) :
  (forall ms, In ms mods -> m_regex (ms_module ms) l = true ->
     fst (m_probe (ms_module ms) p k l) <> EXPAND) ->
  snd (scan_line p k l mods) = false.
Proof.
  induction mods as [|ms mods IH]; intros H; simpl; [reflexivity|].
  assert (H1 : snd (if m_regex (ms_module ms) l
                    then dispatch p k l ms (m_probe (ms_module ms) p k l)
                    else (ms, false)) = false).
  { destruct (m_regex (ms_module ms) l) eqn:Hr; [|reflexivity].
    destruct (snd (dispatch p k l ms (m_probe (ms_module ms) p k l))) eqn:Hd;
      [|reflexivity].
    apply dispatch_flag in Hd. exfalso. exact (H ms (or_introl eq_refl) Hr Hd). }
  assert (H2 : snd (scan_line p k l mods) = false)
    by (apply IH; intros ms' Hin; apply H; right; exact Hin).
  destruct (if m_regex (ms_module ms) l then _ else _) as [ms' e1].
  destruct (scan_line p k l mods) as [rest' e2]. simpl in *. subst. reflexivity.
Qed.

Lemma scan_lines_noexp (bms : list BaseModule) (p : path) (lines : list string)
    (k : nat) (mods : list ModuleState) :
  map ms_module mods = bms ->
  (forall m n l, In m bms -> nth_error lines n = Some l -> m_regex m l = true ->
     fst (m_probe m p (k + n) l) <> EXPAND) ->
  snd (scan_lines p k lines mods) = false.
Proof.
  revert k mods; induction lines as [|l ls IH]; intros k mods Hb H; simpl; [reflexivity|].
  assert (H1 : snd (scan_line p k l mods) = false).
  { apply scan_line_noexp. intros ms Hin Hr. rewrite <- (Nat.add_0_r k).
    apply H; [rewrite <- Hb; apply in_map, Hin|reflexivity|exact Hr]. }
  pose proof (scan_line_modules p k l mods) as Hm.
  destruct (scan_line p k l mods) as [mods1 e1]. simpl in H1, Hm. subst e1.
  assert (H2 : snd (scan_lines p (S k) ls mods1) = false).
  { apply IH; [congruence|]. intros m n l' Hin Hn Hr.
    replace (S k + n) with (k + S n) by lia. apply H; auto. }
  destruct (scan_lines p (S k) ls mods1) as [mods2 e2]. simpl in *. subst. reflexivity.
Qed.

Lemma process_file_set_dry (E : env) (b : bool) (p : path) (s : Processor) :
  (forall lines, read_file E s p = Some lines ->
     snd (scan_lines p 0 lines (modules s)) = false) ->
  process_file E p (set_dry b s) = set_dry b (process_file E p s) /\
  fs (process_file E p s) = fs s /\
  map ms_module (modules (process_file E p s)) = map ms_module (modules s) /\
  files_to_process (process_file E p s) = files_to_process s.
Proof.
  intros H. unfold process_file. simpl.
  destruct (existsb (path_eqb p) (expanded_files s)); [auto|].
  change (read_file E (set_dry b s) p) with (read_file E s p).
  destruct (read_file E s p) as [lines|]; [|auto].
  specialize (H lines eq_refl).
  pose proof (scan_lines_modules p 0 lines (modules s)) as Hm.
  destruct (scan_lines p 0 lines (modules s)) as [mods e]. simpl in H, Hm. subst e.
  auto.
Qed.

Section DryRun.
Variables (E : env) (bms : list BaseModule) (fs0 : fsys) (files : list path).
Hypothesis Hno : forall p lines m n l, In p files -> fs0 p = Some lines -> In m bms ->
  nth_error lines n = Some l -> m_regex m l = true -> fst (m_probe m p n l) <> EXPAND.

Lemma scan_all_set_dry (b : bool) (fuel : nat) (s : Processor) :
  fs s = fs0 -> map ms_module (modules s) = bms ->
  (forall p, In p (files_to_process s) -> In p files) ->
  scan_all E fuel (set_dry b s) = option_map (set_dry b) (scan_all E fuel s).
Proof.
  revert s; induction fuel as [|fuel IH]; intros s Hfs Hb Hf; simpl;
    destruct (files_to_process s) as [|p rest] eqn:Hq; auto.
  set (s0 := emit [EvPop p] (set_files rest s)).
  change (emit [EvPop p] (set_files rest (set_dry b s))) with (set_dry b s0).
  destruct (process_file_set_dry E b p s0) as (Hc & Hfs1 & Hm1 & Hq1).
  { intros lines Hr. apply (scan_lines_noexp bms); [exact Hb|].
    intros m n l Hm Hn Hrx. apply (Hno p lines); auto.
    - apply Hf; rewrite ?Hq; left; reflexivity.
    - unfold read_file in Hr. destruct (read_fails E p); [discriminate|].
      simpl in Hr. rewrite <- Hfs. exact Hr. }
  rewrite Hc.
  change (bump_processed (set_dry b (process_file E p s0)))
    with (set_dry b (bump_processed (process_file E p s0))).
  apply IH; simpl; [rewrite Hfs1; exact Hfs|rewrite Hm1; exact Hb|].
  rewrite Hq1. simpl. intros p' Hin. apply Hf; rewrite ?Hq; right; exact Hin.
Qed.

End DryRun.

Lemma process_file_dry_fs (E : env) (p : path) (s : Processor) :
  dry_run s = true ->
  fs (process_file E p s) = fs s /\ dry_run (process_file E p s) = true.
Proof.
  intros Hd. unfold process_file.
  destruct (existsb (path_eqb p) (expanded_files s)); [auto|].
  destruct (read_file E s p) as [lines|]; [|auto].
  destruct (scan_lines p 0 lines (modules s)) as [mods [|]]; [|auto].
  unfold expand_file; cbv zeta. simpl. rewrite Hd.
  destruct (String.eqb (name p) "index.md"); simpl; rewrite ?Hd; auto.
Qed.

Lemma scan_all_dry_fs (E : env) (fuel : nat) (s s' : Processor) :
  dry_run s = true -> scan_all E fuel s = Some s' ->
  fs s' = fs s /\ dry_run s' = true.
Proof.
  revert s; induction fuel as [|fuel IH]; intros s Hd H; simpl in H;
    destruct (files_to_process s) as [|p rest]; try discriminate;
    try (injection H as <-; auto).
  destruct (process_file_dry_fs E p (emit [EvPop p] (set_files rest s)) Hd) as [H1 H2].
  destruct (IH (bump_processed (process_file E p (emit [EvPop p] (set_files rest s)))) H2 H) as [H3 H4]. simpl in H3. rewrite H3, H1. auto.
Qed.

Lemma run_postprocessing_dry_fs (E : env) (s : Processor) :
  dry_run s = true -> fs (run_postprocessing E s) = fs s.
Proof.
  intros Hd. unfold run_postprocessing.
  destruct (group_by_file (modules s)) as [|g gs]; [reflexivity|].
  generalize (g :: gs); intros l. revert s Hd.
  induction l as [|ft l IH]; intros s Hd; simpl; [reflexivity|].
  unfold postprocess_step at 2. rewrite Hd. rewrite IH; [reflexivity|exact Hd].
Qed.

(** C3 (amended): a dry-run never changes the file system (no document is
    created, moved or modified); and when no detector asks for [EXPAND] on
    any line of the input documents, the scan of a dry-run and of a real
    run end with the same number of documents scanned and the same Jobs
    and TaggedLines in every detector.  In a dry-run, scanning a document
    leaves every detector with exactly what the scan of its lines added:
    when a promotion is requested it is only reported, the old Jobs and
    TaggedLines are not purged and the promoted document is not enqueued. *)
Theorem dry_run_matches_real_without_expand (E : env) (fuel : nat)
    (files : list path) (bms : list BaseModule) (fs0 : fsys) :
  (forall pre st',
     process_all E pre fuel files (init_processor bms true fs0) = Some st' ->
     fs st' = fs0) /\
  ((forall p lines m n l, In p files -> fs0 p = Some lines -> In m bms ->
      nth_error lines n = Some l -> m_regex m l = true ->
      fst (m_probe m p n l) <> EXPAND) ->
   option_map (fun s => (processed_count s, modules s))
     (scan_all E fuel (set_files files (init_processor bms true fs0)))
   = option_map (fun s => (processed_count s, modules s))
       (scan_all E fuel (set_files files (init_processor bms false fs0)))) /\
  (forall (s : Processor) (p : path) (lines : list string),
     dry_run s = true -> existsb (path_eqb p) (expanded_files s) = false ->
     read_file E s p = Some lines ->
     modules (process_file E p s) = fst (scan_lines p 0 lines (modules s)) /\
     files_to_process (process_file E p s) = files_to_process s /\
     (snd (scan_lines p 0 lines (modules s)) = true -> name p <> "index.md" ->
      In (MsgDryExpand p (expand_target p)) (out (process_file E p s)))).
Proof.
  split; [|split].
  - intros pre st' H. unfold process_all in H.
    destruct (scan_all E fuel (set_files files (init_processor bms true fs0)))
      as [s1|] eqn:Hs; [|discriminate].
    destruct (run_preprocessing pre s1) as [s2|] eqn:Hp; [|discriminate].
    injection H as <-.
    destruct (scan_all_dry_fs E fuel (set_files files (init_processor bms true fs0)) s1 eq_refl Hs) as [H1 H2].
    destruct (run_preprocessing_fields pre s1 s2 Hp) as (_ & Hf2 & _ & Hd2).
    rewrite run_postprocessing_dry_fs by congruence. rewrite Hf2, H1. reflexivity.
  - intros Hno.
    change (set_files files (init_processor bms true fs0))
      with (set_dry true (set_files files (init_processor bms false fs0))).
    rewrite (scan_all_set_dry E bms fs0 files Hno true fuel); simpl;
      [|reflexivity|rewrite map_map; apply map_id|auto].
    destruct (scan_all E fuel _); reflexivity.
  - intros s p lines Hd Hex Hr. unfold process_file. rewrite Hex, Hr.
    destruct (scan_lines p 0 lines (modules s)) as [mods [|]]; simpl;
      [|split; [reflexivity|split; [reflexivity|discriminate]]].
    unfold expand_file. cbv zeta. simpl. rewrite Hd.
    destruct (String.eqb (name p) "index.md") eqn:Hn; simpl.
    + split; [reflexivity|split; [reflexivity|]].
      intros _ H. apply String.eqb_eq in Hn. contradiction.
    + rewrite Hd. simpl. split; [reflexivity|split; [reflexivity|]].
      intros _ _. apply in_or_app. right. left. reflexivity.
Qed.

Lemma dry_run_matches_real_without_expand_witness :
  option_map (fun s => (processed_count s, modules s))
    (scan_all Fixtures.E_ok 5 (set_files [Fixtures.b_md]
       (init_processor [Fixtures.tag_mod] true Fixtures.fs0)))
  = option_map (fun s => (processed_count s, modules s))
      (scan_all Fixtures.E_ok 5 (set_files [Fixtures.b_md]
         (init_processor [Fixtures.tag_mod] false Fixtures.fs0))) /\
  modules (process_file Fixtures.E_ok Fixtures.c_md (set_dry true Fixtures.st_c))
  = fst (scan_lines Fixtures.c_md 0 ["X"; "IMG"] (modules (set_dry true Fixtures.st_c))) /\
  files_to_process (process_file Fixtures.E_ok Fixtures.c_md (set_dry true Fixtures.st_c))
  = files_to_process (set_dry true Fixtures.st_c) /\
  In (MsgDryExpand Fixtures.c_md (expand_target Fixtures.c_md))
     (out (process_file Fixtures.E_ok Fixtures.c_md (set_dry true Fixtures.st_c))).
Proof.
  destruct (dry_run_matches_real_without_expand Fixtures.E_ok 5 [Fixtures.b_md]
              [Fixtures.tag_mod] Fixtures.fs0) as (_ & Hsame & Hdry).
  split.
  - apply Hsame.
    intros p lines m n l [<-|[]] Hl [<-|[]] Hn Hr. discriminate.
  - destruct (Hdry (set_dry true Fixtures.st_c) Fixtures.c_md ["X"; "IMG"]
                eq_refl eq_refl eq_refl) as (H1 & H2 & H3).
    split; [exact H1|split; [exact H2|]].
    apply H3; [reflexivity|vm_compute; discriminate].
Defined.

(** With a detector asking for expansion, the counts differ: the real run
    scans [a.md] and then [a/index.md] (2 documents, 1 Job, 1 TaggedLine),
    the dry-run only [a.md] (1 document, no Job, no TaggedLine). *)
Lemma dry_run_counts_counterexample :
  option_map (fun s => (processed_count s, length (all_jobs (modules s)),
                        length (all_tagged (modules s))))
    (process_all Fixtures.E_ok Fixtures.pre_ok 10 [Fixtures.a_md] Fixtures.st_real)
  = Some (2, 1, 1) /\
  option_map (fun s => (processed_count s, length (all_jobs (modules s)),
                        length (all_tagged (modules s))))
    (process_all Fixtures.E_ok Fixtures.pre_ok 10 [Fixtures.a_md] Fixtures.st_dry)
  = Some (1, 0, 0).
Proof. split; vm_compute; reflexivity. Qed.

(* ------------------------------------------------------------------ *)
(** ** Configuration *)

Module ConfigFacts.
Import Config.

Lemma get_set (k k' : string) (v : cval) (d : cdict) :
  get k (set k' v d) = if String.eqb k k' then Some v else get k d.
Proof.
  induction d as [|[k0 v0] d IH]; simpl.
  - reflexivity.
  - destruct (String.eqb_spec k' k0) as [->|Hne]; simpl.
    + destruct (String.eqb k k0); reflexivity.
    + rewrite IH. destruct (String.eqb_spec k k') as [->|Hk].
      * destruct (String.eqb_spec k' k0); [congruence|reflexivity].
      * reflexivity.
Qed.

Lemma get_app (k : string) (d1 d2 : cdict) :
  get k (d1 ++ d2) = match get k d1 with Some v => Some v | None => get k d2 end.
Proof.
  induction d1 as [|[k0 v0] d1 IH]; simpl; [reflexivity|].
  destruct (String.eqb k k0); [reflexivity|exact IH].
Qed.

Lemma get_none (k : string) (d : cdict) :
  existsb (String.eqb k) (map fst d) = false -> get k d = None.
Proof.
  induction d as [|[k0 v0] d IH]; simpl; [reflexivity|].
  destruct (String.eqb k k0); [discriminate|exact IH].
Qed.

Lemma get_some_in (k : string) (d : cdict) (v : cval) :
  get k d = Some v -> existsb (String.eqb k) (map fst d) = true.
Proof.
  induction d as [|[k0 v0] d IH]; simpl; [discriminate|].
  destruct (String.eqb k k0); [reflexivity|exact IH].
Qed.

Lemma set_absent (k : string) (v : cval) (d : cdict) :
  get k d = None -> set k v d = d ++ [(k, v)].
Proof.
  induction d as [|[k0 v0] d IH]; simpl; [reflexivity|].
  destruct (String.eqb k k0); [discriminate|].
  intros H. rewrite (IH H). reflexivity.
Qed.

Lemma keys_set (k : string) (v : cval) (d : cdict) :
  map fst (set k v d) =
  if existsb (String.eqb k) (map fst d) then map fst d else map fst d ++ [k].
Proof.
  induction d as [|[k0 v0] d IH]; simpl; [reflexivity|].
  destruct (String.eqb_spec k k0) as [->|Hne]; simpl; [reflexivity|].
  rewrite IH. destruct (existsb (String.eqb k) (map fst d)); reflexivity.
Qed.

(** Induction on TOML values through the values of a table. *)
Lemma cval_ind_dict (P : cval -> Prop)
  (Hleaf : forall v, (forall d, v <> VDict d) -> P v)
  (Hdict : forall d, Forall (fun kv => P (snd kv)) d -> P (VDict d)) :
  forall v, P v.
Proof.
  fix IH 1. intros v. destruct v as [b|z|q|s|l|d];
    try (apply Hleaf; intros d' Hd'; discriminate Hd').
  apply Hdict. revert d. fix IHd 1. intros [|[k x] d'].
  - constructor.
  - constructor; [apply IH | apply IHd].
Qed.

Lemma wf_cons (k : string) (x : cval) (d : cdict) :
  wf_val (VDict ((k, x) :: d)) =
  negb (existsb (String.eqb k) (map fst d)) && wf_val x && wf_val (VDict d).
Proof. reflexivity. Qed.

Lemma wf_get (d : cdict) (k : string) (v : cval) :
  wf_val (VDict d) = true -> get k d = Some v -> wf_val v = true.
Proof.
  induction d as [|[k0 x] d IH]; intros H Hg; [discriminate|].
  rewrite wf_cons in H. simpl in Hg. apply andb_prop in H as [H H3].
  apply andb_prop in H as [_ H2].
  destruct (String.eqb k k0); [congruence|exact (IH H3 Hg)].
Qed.

Lemma wf_nodup (d : cdict) : wf_val (VDict d) = true -> NoDup (map fst d).
Proof.
  induction d as [|[k x] d IH]; [constructor|].
  rewrite wf_cons. intros H. cbn [map fst]. apply andb_prop in H as [H H3].
  apply andb_prop in H as [H1 _].
  constructor; [|exact (IH H3)].
  intros Hin. apply negb_true_iff in H1.
  assert (existsb (String.eqb k) (map fst d) = true) as Ht.
  { apply existsb_exists. exists k. split; [exact Hin|apply String.eqb_refl]. }
  congruence.
Qed.

Lemma copy_fold_fresh : forall (d acc : cdict),
  wf_val (VDict d) = true ->
  (forall k, In k (map fst d) -> get k acc = None) ->
  Forall (fun kv => copy_val (snd kv) = snd kv) d ->
  fold_left (fun result '(key, value) => set key (copy_val value) result) d acc
  = acc ++ d.
Proof.
  induction d as [|[k x] d IH]; intros acc Hwf Hacc Hc; simpl.
  - rewrite app_nil_r. reflexivity.
  - inversion Hc as [|? ? Hx Hd]; subst. simpl in Hx. rewrite Hx.
    rewrite wf_cons in Hwf. apply andb_prop in Hwf as [Hw Hwd].
    apply andb_prop in Hw as [Hfresh _].
    rewrite set_absent by (apply Hacc; left; reflexivity).
    rewrite IH; [rewrite <- app_assoc; reflexivity|exact Hwd| |exact Hd].
    intros k' Hin. rewrite get_app, Hacc by (right; exact Hin). simpl.
    destruct (String.eqb_spec k' k) as [->|]; [|reflexivity].
    apply negb_true_iff in Hfresh.
    assert (existsb (String.eqb k) (map fst d) = true) as Ht.
    { apply existsb_exists. exists k. split; [exact Hin|apply String.eqb_refl]. }
    congruence.
Qed.

Lemma copy_val_wf : forall v, wf_val v = true -> copy_val v = v.
Proof.
  apply (cval_ind_dict (fun v => wf_val v = true -> copy_val v = v)).
  - intros v Hv _. destruct v; try reflexivity. exfalso. exact (Hv d eq_refl).
  - intros d Hall Hwf. change (VDict (fold_left (fun result '(key, value) =>
        set key (copy_val value) result) d []) = VDict d).
    f_equal. rewrite copy_fold_fresh; [reflexivity|exact Hwf|reflexivity|].
    assert (forall d', wf_val (VDict d') = true ->
              Forall (fun kv => wf_val (snd kv) = true -> copy_val (snd kv) = snd kv) d' ->
              Forall (fun kv => copy_val (snd kv) = snd kv) d') as Hgen.
    { induction d' as [|[k x] d' IHd]; intros Hw Hf; constructor.
      - inversion Hf; subst. apply H1. rewrite wf_cons in Hw.
        apply andb_prop in Hw as [Hw _]. apply andb_prop in Hw as [_ Hw]. exact Hw.
      - inversion Hf; subst. apply IHd; [|exact H2].
        rewrite wf_cons in Hw. apply andb_prop in Hw as [_ Hw]. exact Hw. }
    apply Hgen; [exact Hwf|]. exact Hall.
Qed.

(** C: copying a well-formed table gives the same table. *)
Lemma deep_copy_dict_id (d : cdict) (H : wf_dict d = true) :
  _deep_copy_dict d = d.
Proof.
  pose proof (copy_val_wf (VDict d) H) as Hc. injection Hc as Hc. exact Hc.
Qed.

(** [_deep_copy_dict] of a well-formed configuration (no key repeated in
    any table) is that configuration: the copy has the same keys, in the
    same order, with the same values at every depth. *)
Lemma deep_copy_dict_wf (d : cdict) (H : wf_dict d = true) :
  _deep_copy_dict d = d.
Proof. exact (deep_copy_dict_id d H). Qed.

Lemma deep_copy_dict_wf_witness :
  wf_dict DEFAULT_CONFIG = true /\ _deep_copy_dict DEFAULT_CONFIG = DEFAULT_CONFIG.
Proof.
  split; [reflexivity|].
  apply (deep_copy_dict_wf DEFAULT_CONFIG). reflexivity.
Defined.



Lemma merge_fold_get (k : string) : forall (o acc : cdict),
  NoDup (map fst o) ->
  get k (fold_left (fun result '(key, value) =>
                   match get key result, value with
                   | Some (VDict r), VDict _ => set key (VDict (merge_into value r)) result
                   | _, _ => set key value result
                   end) o acc) =
  match get k o with
  | None => get k acc
  | Some v =>
      match get k acc, v with
      | Some (VDict r), VDict _ => Some (VDict (merge_into v r))
      | _, _ => Some v
      end
  end.
Proof.
  induction o as [|[key value] o IH]; intros acc Hnd; [reflexivity|].
  inversion Hnd as [|? ? Hnin Hnd']; subst. simpl.
  rewrite IH by exact Hnd'.
  destruct (String.eqb_spec k key) as [->|Hne].
  - rewrite get_none.
    + destruct (get key acc) as [[]|]; destruct value;
        rewrite get_set, String.eqb_refl; reflexivity.
    + apply not_true_is_false. intros Hin. apply existsb_exists in Hin as [k' [Hk' Heq]].
      apply String.eqb_eq in Heq. subst k'. exact (Hnin Hk').
  - assert (get k (match get key acc, value with
                   | Some (VDict r), VDict _ => set key (VDict (merge_into value r)) acc
                   | _, _ => set key value acc
                   end) = get k acc) as Hk.
    { apply String.eqb_neq in Hne.
      destruct (get key acc) as [[]|]; destruct value; rewrite get_set, Hne; reflexivity. }
    rewrite Hk. reflexivity.
Qed.

Lemma merge_fold_get_absent (k : string) : forall (o acc : cdict),
  get k o = None ->
  get k (fold_left (fun result '(key, value) =>
                   match get key result, value with
                   | Some (VDict r), VDict _ => set key (VDict (merge_into value r)) result
                   | _, _ => set key value result
                   end) o acc) = get k acc.
Proof.
  induction o as [|[key value] o IH]; intros acc Ho; [reflexivity|].
  simpl in Ho. simpl. destruct (String.eqb_spec k key) as [|Hne]; [discriminate|].
  rewrite IH by exact Ho. apply String.eqb_neq in Hne.
  destruct (get key acc) as [[]|]; destruct value; rewrite get_set, Hne; reflexivity.
Qed.

Lemma merge_fold_keys : forall (o acc : cdict),
  NoDup (map fst o) ->
  map fst (fold_left (fun result '(key, value) =>
                   match get key result, value with
                   | Some (VDict r), VDict _ => set key (VDict (merge_into value r)) result
                   | _, _ => set key value result
                   end) o acc) =
  map fst acc ++ filter (fun k => negb (existsb (String.eqb k) (map fst acc))) (map fst o).
Proof.
  induction o as [|[key value] o IH]; intros acc Hnd.
  - simpl. rewrite app_nil_r. reflexivity.
  - inversion Hnd as [|? ? Hnin Hnd']; subst. cbn [fold_left].
    rewrite IH by exact Hnd'.
    assert (forall v', map fst (set key v' acc) ++
              filter (fun k => negb (existsb (String.eqb k) (map fst (set key v' acc))))
                (map fst o) =
              map fst acc ++
              filter (fun k => negb (existsb (String.eqb k) (map fst acc)))
                (map fst ((key, value) :: o))) as Hstep.
    { intros v'. rewrite keys_set. cbn [map fst filter].
      destruct (existsb (String.eqb key) (map fst acc)); simpl; [reflexivity|].
      rewrite <- app_assoc. simpl. f_equal. f_equal.
      apply filter_ext_in. intros k Hin. rewrite existsb_app. simpl.
      destruct (String.eqb_spec k key) as [->|]; [contradiction|].
      rewrite orb_false_r. reflexivity. }
    destruct (get key acc) as [[]|]; destruct value; apply Hstep.
Qed.

Lemma merge_get_wf (base override : cdict) (k : string)
  (Hb : wf_dict base = true) (Ho : wf_dict override = true) :
  get k (_deep_merge_dict base override) =
  match get k override with
  | None => get k base
  | Some v =>
      match get k base, v with
      | Some (VDict r), VDict o => Some (VDict (_deep_merge_dict r o))
      | _, _ => Some v
      end
  end.
Proof.
  unfold _deep_merge_dict at 1. cbn [merge_into].
  rewrite merge_fold_get by (apply wf_nodup; exact Ho).
  rewrite deep_copy_dict_id by exact Hb.
  destruct (get k override) as [v|]; [|reflexivity].
  destruct (get k base) as [[]|]; destruct v; reflexivity.
Qed.

(** [_deep_merge_dict base override] at a key: the base's value when the
    override lacks the key; the recursive merge when both values are
    tables; otherwise the override's value, which replaces the base's. *)
Lemma deep_merge_dict_get (base override : cdict) (k : string)
  (Hb : wf_dict base = true) (Ho : wf_dict override = true) :
  get k (_deep_merge_dict base override) =
  match get k override with
  | None => get k base
  | Some v =>
      match get k base, v with
      | Some (VDict r), VDict o => Some (VDict (_deep_merge_dict r o))
      | _, _ => Some v
      end
  end.
Proof. exact (merge_get_wf base override k Hb Ho). Qed.

Lemma deep_merge_dict_get_witness :
  get "modules"
    (_deep_merge_dict DEFAULT_CONFIG
       [("modules", VDict [("image_localizer", VDict [("max_retries", VInt 10)])])]) =
  Some (VDict (_deep_merge_dict
    (match get "modules" DEFAULT_CONFIG with Some (VDict r) => r | _ => [] end)
    [("image_localizer", VDict [("max_retries", VInt 10)])])).
Proof.
  apply (deep_merge_dict_get DEFAULT_CONFIG
           [("modules", VDict [("image_localizer", VDict [("max_retries", VInt 10)])])]
           "modules"); reflexivity.
Defined.


(** The keys of [_deep_merge_dict base override] are the base's keys in
    their order, followed by the override's new keys in theirs. *)
Lemma deep_merge_dict_keys (base override : cdict)
  (Hb : wf_dict base = true) (Ho : wf_dict override = true) :
  map fst (_deep_merge_dict base override) =
  map fst base ++
  filter (fun k => negb (existsb (String.eqb k) (map fst base))) (map fst override).
Proof.
  unfold _deep_merge_dict. cbn [merge_into].
  rewrite merge_fold_keys by (apply wf_nodup; exact Ho).
  rewrite deep_copy_dict_id by exact Hb. reflexivity.
Qed.

Lemma deep_merge_dict_keys_witness :
  map fst (_deep_merge_dict DEFAULT_CONFIG
             [("plugins", VList []); ("worker", VDict [("max_workers", VInt 8)])]) =
  ["general"; "modules"; "worker"; "plugins"].
Proof.
  rewrite (deep_merge_dict_keys DEFAULT_CONFIG
             [("plugins", VList []); ("worker", VDict [("max_workers", VInt 8)])]);
    reflexivity.
Defined.


Lemma load_config_cases (path_exists : path -> bool)
    (toml_load : path -> option cdict) (config_path git_root : option path) :
  fst (load_config path_exists toml_load config_path git_root) =
    _deep_copy_dict DEFAULT_CONFIG \/
  exists p u, toml_load p = Some u /\
    fst (load_config path_exists toml_load config_path git_root) =
    _deep_merge_dict (_deep_copy_dict DEFAULT_CONFIG) u.
Proof.
  unfold load_config.
  destruct (match config_path, git_root with
            | None, Some g => find_config_file path_exists g
            | _, _ => config_path
            end) as [p|]; [|left; reflexivity].
  destruct (path_exists p); simpl; [|left; reflexivity].
  destruct (toml_load p) as [u|] eqn:E; [right|left; reflexivity].
  exists p, u. split; [exact E|reflexivity].
Qed.

(** [main] gives each registered module [config.get(name, {})] of the
    merged configuration, and the merged configuration has no top-level
    [image_localizer] or [tweet_downloader] key unless the user's file has
    one: whatever the file says under [[modules.*]], and the defaults
    there, both modules are instantiated with an empty configuration. *)
Lemma main_module_configs_top_level (path_exists : path -> bool)
    (toml_load : path -> option cdict) (config_path git_root : option path)
    (Hu : forall p u, toml_load p = Some u ->
          get "image_localizer" u = None /\ get "tweet_downloader" u = None) :
  main_module_configs path_exists toml_load config_path git_root =
  Some [("image_localizer", VDict []); ("tweet_downloader", VDict [])].
Proof.
  unfold main_module_configs.
  change (register "image_localizer" []) with (Some ["image_localizer"]).
  cbv beta iota.
  change (register "tweet_downloader" ["image_localizer"])
    with (Some ["image_localizer"; "tweet_downloader"]).
  cbv beta iota. unfold instantiate_all. cbn [map].
  destruct (load_config_cases path_exists toml_load config_path git_root)
    as [-> | [p [u [Hl ->]]]]; [reflexivity|].
  destruct (Hu p u Hl) as [Hi Ht]. unfold get_or, _deep_merge_dict. cbn [merge_into].
  rewrite !merge_fold_get_absent by assumption. reflexivity.
Qed.

Lemma main_module_configs_top_level_witness :
  main_module_configs (fun _ => true)
    (fun _ => Some [("modules", VDict [("image_localizer",
                       VDict [("max_retries", VInt 10)])])])
    (Some [".auxmark.toml"]) None =
  Some [("image_localizer", VDict []); ("tweet_downloader", VDict [])].
Proof.
  apply main_module_configs_top_level.
  intros p u Hu. injection Hu as <-. split; reflexivity.
Defined.


Lemma default_config_wf : wf_dict DEFAULT_CONFIG = true.
Proof. reflexivity. Qed.

(** For a configuration loaded over the defaults, [is_module_enabled] of
    either module is the user's [modules.<name>.enabled] when given and
    [true] otherwise. *)
Lemma is_module_enabled_merged (u : cdict) (name : string)
    (Hu : wf_dict u = true)
    (Hname : name = "image_localizer" \/ name = "tweet_downloader")
    (Hm : forall m, get "modules" u = Some m ->
          exists md, m = VDict md /\
          forall mc, get name md = Some mc -> exists mcd, mc = VDict mcd) :
  is_module_enabled (_deep_merge_dict DEFAULT_CONFIG u) name =
  Some match get "modules" u with
       | Some (VDict md) =>
           match get name md with
           | Some (VDict mcd) => get_or "enabled" (VBool true) mcd
           | _ => VBool true
           end
       | _ => VBool true
       end.
Proof.
  unfold is_module_enabled, get_module_config, get_or.
  rewrite merge_get_wf by (exact default_config_wf || exact Hu).
  destruct (get "modules" u) as [m|] eqn:Em;
    [|destruct Hname as [-> | ->]; reflexivity].
  destruct (Hm m eq_refl) as [md [-> Hmc]].
  pose proof (wf_get u "modules" (VDict md) Hu Em) as Hwmd.
  destruct Hname as [-> | ->]; cbn [get String.eqb Ascii.eqb Bool.eqb DEFAULT_CONFIG];
    (rewrite merge_get_wf; [|reflexivity|exact Hwmd]);
    (destruct (get _ md) as [mc|] eqn:Emc; [|reflexivity]);
    destruct (Hmc mc eq_refl) as [mcd ->];
    pose proof (wf_get md _ (VDict mcd) Hwmd Emc) as Hwmcd;
    cbn [get String.eqb Ascii.eqb Bool.eqb];
    (rewrite merge_get_wf; [|reflexivity|exact Hwmcd]);
    (destruct (get "enabled" mcd); reflexivity).
Qed.

Lemma is_module_enabled_merged_witness :
  is_module_enabled
    (_deep_merge_dict DEFAULT_CONFIG
       [("modules", VDict [("tweet_downloader", VDict [("enabled", VBool false)])])])
    "tweet_downloader" = Some (VBool false).
Proof.
  apply (is_module_enabled_merged
           [("modules", VDict [("tweet_downloader", VDict [("enabled", VBool false)])])]
           "tweet_downloader").
  - reflexivity.
  - right; reflexivity.
  - intros m Hm. injection Hm as <-. eexists; split; [reflexivity|].
    intros mc Hmc. injection Hmc as <-. eexists; reflexivity.
Defined.


End ConfigFacts.

(* ------------------------------------------------------------------ *)
(** ** [RateLimitedWorkerPool] helpers *)

Module PoolFacts.
Import Pool.

Record locks_ok (st : locks) : Prop := {
  lk_keys : NoDup (map fst (domain_locks st));
  lk_ids : NoDup (map snd (domain_locks st));
  lk_fresh : forall l, In l (map snd (domain_locks st)) -> l < fresh st }.

Lemma lookup_In (domain : string) (d : list (string * nat)) (l : nat) :
  lookup domain d = Some l -> In (domain, l) d.
Proof.
  induction d as [|[k l'] d IH]; simpl; [discriminate|].
  destruct (String.eqb_spec domain k) as [->|]; [intros [= ->]; left; reflexivity|].
  intros H. right. exact (IH H).
Qed.

Lemma lookup_None (domain : string) (d : list (string * nat)) :
  lookup domain d = None -> ~ In domain (map fst d).
Proof.
  induction d as [|[k l'] d IH]; simpl; [intros _ []|].
  destruct (String.eqb_spec domain k) as [->|Hne]; [discriminate|].
  intros H [Heq|Hin]; [congruence|exact (IH H Hin)].
Qed.

Lemma lookup_unique (domain : string) (d : list (string * nat)) (l : nat) :
  NoDup (map fst d) -> In (domain, l) d -> lookup domain d = Some l.
Proof.
  induction d as [|[k l'] d IH]; simpl; [intros _ []|].
  intros Hnd. inversion Hnd as [|? ? Hnin Hnd']; subst.
  intros [[= -> ->]|Hin]; [rewrite String.eqb_refl; reflexivity|].
  destruct (String.eqb_spec domain k) as [->|]; [|exact (IH Hnd' Hin)].
  exfalso. apply Hnin. apply in_map_iff. exists (k, l). split; [reflexivity|exact Hin].
Qed.

Lemma lookup_app_l (domain : string) (d e : list (string * nat)) (l : nat) :
  lookup domain d = Some l -> lookup domain (d ++ e) = Some l.
Proof.
  induction d as [|[k l'] d IH]; simpl; [discriminate|].
  destruct (String.eqb domain k); [tauto|exact IH].
Qed.

Lemma get_domain_lock_ok (st : locks) (domain : string) :
  locks_ok st ->
  locks_ok (fst (_get_domain_lock st domain)) /\
  lookup domain (domain_locks (fst (_get_domain_lock st domain))) =
    Some (snd (_get_domain_lock st domain)) /\
  (forall d l, lookup d (domain_locks st) = Some l ->
     lookup d (domain_locks (fst (_get_domain_lock st domain))) = Some l).
Proof.
  intros [Hk Hi Hf]. unfold _get_domain_lock.
  destruct (lookup domain (domain_locks st)) as [l|] eqn:E; simpl.
  - split; [constructor; assumption|split; [exact E|tauto]].
  - split; [|split].
    + constructor; simpl; rewrite map_app; simpl.
      * apply NoDup_app; [exact Hk|repeat constructor; intros []|].
        intros x Hx [<-|[]]. exact (lookup_None _ _ E Hx).
      * apply NoDup_app; [exact Hi|repeat constructor; intros []|].
        intros x Hx [<-|[]]. specialize (Hf _ Hx). lia.
      * intros l Hl. apply in_app_or in Hl as [Hl|[<-|[]]]; [specialize (Hf _ Hl)|]; lia.
    + apply lookup_unique.
      * rewrite map_app. apply NoDup_app; [exact Hk|repeat constructor; intros []|].
        intros x Hx [<-|[]]. exact (lookup_None _ _ E Hx).
      * apply in_or_app. right. left. reflexivity.
    + intros d l Hd. apply lookup_app_l. exact Hd.
Qed.

Lemma get_locks_spec : forall (ds : list string) (st : locks),
  locks_ok st ->
  locks_ok (fst (get_locks st ds)) /\
  (forall d l, lookup d (domain_locks st) = Some l ->
     lookup d (domain_locks (fst (get_locks st ds))) = Some l) /\
  Forall2 (fun d l => lookup d (domain_locks (fst (get_locks st ds))) = Some l)
    ds (snd (get_locks st ds)).
Proof.
  induction ds as [|d ds IH]; intros st Hok.
  - simpl. split; [exact Hok|split; [tauto|constructor]].
  - simpl. destruct (get_domain_lock_ok st d Hok) as [Hok1 [Hl1 Hp1]].
    destruct (_get_domain_lock st d) as [st1 l] eqn:E. simpl in *.
    destruct (IH st1 Hok1) as [Hok2 [Hp2 Hall]].
    destruct (get_locks st1 ds) as [st2 ls]. simpl in *.
    split; [exact Hok2|split].
    + intros d' l' H. apply Hp2, Hp1, H.
    + constructor; [apply Hp2, Hl1|exact Hall].
Qed.

(** [_get_domain_lock] hands out one lock per domain: two requests get
    the same lock exactly when their domains are equal. *)
Lemma domain_locks_shared_per_domain (domains : list string) (i j : nat)
    (Hi : i < length domains) (Hj : j < length domains) :
  nth i domains "" = nth j domains "" <->
  nth i (snd (get_locks no_locks domains)) 0 =
  nth j (snd (get_locks no_locks domains)) 0.
Proof.
  destruct (get_locks_spec domains no_locks) as [Hok [_ Hall]].
  { constructor; simpl; [constructor|constructor|intros _ []]. }
  destruct (get_locks no_locks domains) as [st ls]. simpl in *.
  assert (length ls = length domains) as Hlen by (symmetry; exact (Forall2_length Hall)).
  assert (forall k, k < length domains ->
            lookup (nth k domains "") (domain_locks st) = Some (nth k ls 0)) as Hk.
  { clear Hi Hj Hlen Hok. induction Hall as [|d l ds' ls' Hd Hrest IHr];
      simpl; intros k Hk; [lia|].
    destruct k; [exact Hd|apply IHr; lia]. }
  pose proof (Hk i Hi) as Hli. pose proof (Hk j Hj) as Hlj.
  split.
  - intros Heq. rewrite Heq in Hli. congruence.
  - intros Heq. rewrite Heq in Hli.
    apply lookup_In in Hli. apply lookup_In in Hlj.
    destruct Hok as [Hkeys Hids _].
    assert (forall a b l, In (a, l) (domain_locks st) -> In (b, l) (domain_locks st) -> a = b)
      as Hinj.
    { clear -Hkeys Hids. revert Hkeys Hids. generalize (domain_locks st) as dl.
      induction dl as [|[k l'] d IH]; intros Hkeys Hids; [intros ? ? ? []|].
      simpl in Hkeys, Hids. inversion Hkeys as [|? ? Hnk Hk']; subst.
      inversion Hids as [|? ? Hnl Hl']; subst.
      intros a b l [Ha|Ha] [Hb|Hb].
      - congruence.
      - injection Ha as Ha1 Ha2. subst. exfalso. apply Hnl.
        apply in_map_iff. exists (b, l). split; [reflexivity|exact Hb].
      - injection Hb as Hb1 Hb2. subst. exfalso. apply Hnl.
        apply in_map_iff. exists (a, l). split; [reflexivity|exact Ha].
      - exact (IH Hk' Hl' a b l Ha Hb). }
    exact (Hinj _ _ _ Hli Hlj).
Qed.

Lemma domain_locks_shared_per_domain_witness :
  (nth 0 ["example.com"; "__local__"; "example.com"] "" =
   nth 2 ["example.com"; "__local__"; "example.com"] "" <->
   nth 0 (snd (get_locks no_locks ["example.com"; "__local__"; "example.com"])) 0 =
   nth 2 (snd (get_locks no_locks ["example.com"; "__local__"; "example.com"])) 0) /\
  (nth 0 ["example.com"; "__local__"; "example.com"] "" =
   nth 1 ["example.com"; "__local__"; "example.com"] "" <->
   nth 0 (snd (get_locks no_locks ["example.com"; "__local__"; "example.com"])) 0 =
   nth 1 (snd (get_locks no_locks ["example.com"; "__local__"; "example.com"])) 0).
Proof.
  split; apply domain_locks_shared_per_domain; simpl; lia.
Defined.


End PoolFacts.

(* ------------------------------------------------------------------ *)
(** ** Domains of tweet and image jobs *)

Lemma tweet_domain_of_metadata (job : Job) (tweet_id : pyval) :
  dict_get "images" (j_metadata job) = None ->
  dict_get "tweet_id" (j_metadata job) = Some tweet_id ->
  extract_domain_from_job job = Some "publish.x.com".
Proof.
  intros Hi Ht. unfold extract_domain_from_job, job_url. rewrite Hi, Ht.
  cbn. reflexivity.
Qed.

(** A job with a tweet id and no [images] key is rate-limited under
    [publish.x.com]. *)
Lemma tweet_job_domain (job : Job) (tweet_id : pyval)
    (Hi : dict_get "images" (j_metadata job) = None)
    (Ht : dict_get "tweet_id" (j_metadata job) = Some tweet_id) :
  extract_domain_from_job job = Some "publish.x.com".
Proof. exact (tweet_domain_of_metadata job tweet_id Hi Ht). Qed.

Lemma tweet_job_domain_witness :
  extract_domain_from_job
    (mkJob ["post.md"] 3 "" "tweet_downloader"
       [("user", PStr "jack"); ("tweet_id", PStr "20")]) = Some "publish.x.com".
Proof.
  apply (tweet_job_domain _ (PStr "20")); reflexivity.
Defined.


(** When a job's metadata has an [images] key, the domain depends on it
    alone (a [tweet_id] is ignored), and a value that is not a non-empty
    list puts the job in the local bucket. *)
Lemma images_key_decides_domain (job : Job) (images : pyval)
    (Hi : dict_get "images" (j_metadata job) = Some images) :
  extract_domain_from_job job =
    extract_domain_from_job (mkJob (j_file_path job) (j_line_no job) (j_line job)
                               (j_module_name job) [("images", images)]) /\
  ((forall img rest, images <> PList (img :: rest)) ->
   extract_domain_from_job job = Some LOCAL_DOMAIN).
Proof.
  unfold extract_domain_from_job, job_url. rewrite Hi. cbn [j_metadata dict_get].
  split; [reflexivity|].
  intros Hn. destruct images as [| | |[|img rest]|]; try reflexivity.
  exfalso. exact (Hn img rest eq_refl).
Qed.

Lemma images_key_decides_domain_witness :
  extract_domain_from_job
    (mkJob ["post.md"] 3 "" "tweet_downloader"
       [("tweet_id", PStr "20"); ("images", PStr "https://example.com/a.png")]) =
  Some LOCAL_DOMAIN.
Proof.
  apply (images_key_decides_domain _ (PStr "https://example.com/a.png")); [reflexivity|].
  intros img rest H. discriminate H.
Defined.


(* ------------------------------------------------------------------ *)
(** ** [ImageLocalizerModule] download helpers *)

Module ImageFacts.
Import Image.

(** The retry loop of [_download_and_convert] makes at most one attempt:
    a successful read downloads, and any error on the first attempt raises
    out of it, because [_should_retry_error] itself raises. With
    [max_retries = 0] nothing is attempted. *)
Lemma download_single_attempt (urlopen : nat -> attempt_outcome) (max_retries : nat) :
  download urlopen max_retries =
  match max_retries with
  | O => Exhausted
  | S _ => match urlopen 0 with Read => Downloaded 0 | _ => Raised 0 end
  end.
Proof.
  unfold download. destruct max_retries as [|m]; [reflexivity|].
  cbn [seq download_loop]. destruct (urlopen 0) as [|e|]; reflexivity.
Qed.

Lemma append_length_str (s t : string) :
  String.length (String.append s t) = String.length s + String.length t.
Proof. induction s as [|a s IH]; simpl; [reflexivity|rewrite IH; reflexivity]. Qed.

Lemma append_cancel_l (p s t : string) :
  String.append p s = String.append p t -> s = t.
Proof. induction p as [|a p IH]; simpl; [tauto|intros H; injection H; exact IH]. Qed.

Lemma append_cancel_r (s1 s2 t : string) :
  String.append s1 t = String.append s2 t -> s1 = s2.
Proof.
  revert s2. induction s1 as [|a s1 IH]; intros s2 H.
  - destruct s2 as [|b s2]; [reflexivity|].
    apply (f_equal String.length) in H. rewrite append_length_str in H.
    simpl in H. rewrite append_length_str in H. lia.
  - destruct s2 as [|b s2].
    + apply (f_equal String.length) in H. simpl in H. rewrite append_length_str in H. lia.
    + simpl in H. injection H as -> H. f_equal. exact (IH s2 H).
Qed.

Lemma to_uint_not_nil (n : nat) : Nat.to_uint n <> Decimal.Nil.
Proof.
  intros H. pose proof (DecimalNat.Unsigned.of_to n) as Hn. rewrite H in Hn.
  simpl in Hn. subst n. discriminate H.
Qed.

Lemma str_nat_inj (a b : nat) : str_nat a = str_nat b -> a = b.
Proof.
  unfold str_nat. intros H.
  apply (f_equal DecimalString.NilZero.uint_of_string) in H.
  rewrite !DecimalString.NilZero.usu in H by apply to_uint_not_nil.
  injection H as H. exact (DecimalNat.Unsigned.to_uint_inj a b H).
Qed.

Lemma candidate_inj (base_name ext : string) (a b : nat) :
  candidate base_name ext a = candidate base_name ext b -> a = b.
Proof.
  unfold candidate. intros H. apply append_cancel_l in H. simpl in H.
  injection H as H. apply append_cancel_r in H. exact (str_nat_inj a b H).
Qed.

Lemma conflict_loop_result (path_exists : path -> bool) (target_dir : path)
    (base_name ext : string) : forall fuel counter,
  match conflict_loop path_exists target_dir base_name ext counter fuel with
  | Some f => path_exists (target_dir ++ [f]) = false
  | None => forall k, counter <= k < counter + fuel ->
              path_exists (target_dir ++ [candidate base_name ext k]) = true
  end.
Proof.
  induction fuel as [|fuel IH]; intros counter; cbn [conflict_loop];
    [intros k Hk; lia|].
  change (String.append base_name (String.append "_" (String.append (str_nat counter) ext)))
    with (candidate base_name ext counter).
  destruct (path_exists (target_dir ++ [candidate base_name ext counter])) eqn:E.
  - specialize (IH (S counter)).
    destruct (conflict_loop path_exists target_dir base_name ext (S counter) fuel);
      [exact IH|].
    intros k Hk. destruct (Nat.eq_dec k counter) as [->|]; [exact E|apply IH; lia].
  - exact E.
Qed.

(** The naming loop of [_download_and_convert] ends, within one round
    more than the number of taken names in the directory, on a name that
    does not exist there. *)
Lemma resolve_output_filename_free (path_exists : path -> bool)
    (target_dir : path) (output_filename : string) (existing : list string)
    (Hex : forall f, path_exists (target_dir ++ [f]) = true -> In f existing) :
  exists f,
    resolve_output_filename path_exists target_dir output_filename
      (S (length existing)) = Some f /\
    path_exists (target_dir ++ [f]) = false.
Proof.
  unfold resolve_output_filename.
  destruct (path_exists (target_dir ++ [output_filename])) eqn:E0;
    [|exists output_filename; split; [reflexivity|exact E0]].
  pose proof (conflict_loop_result path_exists target_dir (stem_of output_filename)
                (suffix_of output_filename) (S (length existing)) 2) as H.
  destruct (conflict_loop path_exists target_dir (stem_of output_filename)
              (suffix_of output_filename) 2 (S (length existing))) as [f|].
  - exists f. split; [reflexivity|exact H].
  - exfalso.
    set (cands := map (candidate (stem_of output_filename) (suffix_of output_filename))
                    (seq 2 (S (length existing)))).
    assert (NoDup cands) as Hnd.
    { unfold cands. generalize (seq_NoDup (S (length existing)) 2).
      generalize (seq 2 (S (length existing))) as ks.
      induction ks as [|k ks IHk]; intros Hks; simpl; [constructor|].
      inversion Hks as [|? ? Hk Hks']; subst. constructor; [|exact (IHk Hks')].
      intros Hin. apply in_map_iff in Hin as [k' [Hc Hk']].
      apply candidate_inj in Hc. subst k'. exact (Hk Hk'). }
    assert (incl cands existing) as Hinc.
    { intros f Hf. unfold cands in Hf. apply in_map_iff in Hf as [k [<- Hk]].
      apply in_seq in Hk. apply Hex. apply H. lia. }
    pose proof (NoDup_incl_length Hnd Hinc) as Hlen.
    unfold cands in Hlen. rewrite length_map, length_seq in Hlen. lia.
Qed.

Lemma resolve_output_filename_free_witness :
  exists f,
    resolve_output_filename
      (fun p => existsb (path_eqb p) [["img"; "a.png"]; ["img"; "a_2.png"]])
      ["img"] "a.png" 3 = Some f /\
    existsb (path_eqb (["img"] ++ [f])) [["img"; "a.png"]; ["img"; "a_2.png"]] = false.
Proof.
  apply (resolve_output_filename_free
           (fun p => existsb (path_eqb p) [["img"; "a.png"]; ["img"; "a_2.png"]])
           ["img"] "a.png" ["a.png"; "a_2.png"]).
  intros f H.
  destruct (String.eqb_spec f "a.png") as [->|N1]; [left; reflexivity|].
  destruct (String.eqb_spec f "a_2.png") as [->|N2]; [right; left; reflexivity|].
  exfalso. apply String.eqb_neq in N1, N2. simpl in H. rewrite N1, N2 in H.
  discriminate H.
Defined.


End ImageFacts.

(* ------------------------------------------------------------------ *)
(** ** [tweet_downloader.py] *)

Module TweetFacts.
Import Tweet.

Lemma str_append_assoc (a b c : string) :
  String.append (String.append a b) c = String.append a (String.append b c).
Proof. induction a as [|x a IH]; simpl; [reflexivity|rewrite IH; reflexivity]. Qed.

Lemma str_append_empty (a : string) : String.append a "" = a.
Proof. induction a as [|x a IH]; simpl; [reflexivity|rewrite IH; reflexivity]. Qed.

Lemma all_digits_span (s : string) : all_digits (span is_digit s) = true.
Proof.
  induction s as [|c s IH]; simpl; [reflexivity|].
  destruct (is_digit c) eqn:E; simpl; [rewrite E; exact IH|reflexivity].
Qed.

Lemma plus_digits (r g rest : string) :
  plus is_digit r = Some (g, rest) -> isdigit g = true.
Proof.
  unfold plus. destruct (String.eqb (span is_digit r) "") eqn:E; [discriminate|].
  intros [= <- _]. unfold isdigit. rewrite E, all_digits_span. reflexivity.
Qed.

Lemma match_status_digits (s g : string) :
  match_status s = Some g -> isdigit g = true.
Proof.
  unfold match_status. destruct (strip_prefix "status/" s) as [r|]; [|discriminate].
  destruct (plus is_digit r) as [[g' rest]|] eqn:E; simpl; [|discriminate].
  intros [= <-]. exact (plus_digits r g' rest E).
Qed.

Lemma match_host_status_digits (s g : string) :
  match_host_status s = Some g -> isdigit g = true.
Proof.
  assert (forall r, match_after_host r = Some g -> isdigit g = true) as Ha.
  { intros r. unfold match_after_host.
    destruct (strip_prefix "/" r) as [r1|]; [|discriminate].
    destruct (plus is_word r1) as [[w r2]|]; [|discriminate].
    destruct (strip_prefix "/" r2) as [r3|]; [|discriminate].
    apply match_status_digits. }
  unfold match_host_status.
  destruct (strip_prefix "x.com" s) as [r|];
    [destruct (match_after_host r) as [g'|] eqn:E|].
  - intros [= <-]. exact (Ha r E).
  - destruct (strip_prefix "twitter.com" s) as [r'|]; [apply Ha|discriminate].
  - destruct (strip_prefix "twitter.com" s) as [r'|]; [apply Ha|discriminate].
Qed.

Lemma search_spec {A} (m : string -> option A) (P : A -> Prop)
    (Hm : forall s g, m s = Some g -> P g) :
  forall s g, search m s = Some g -> P g.
Proof.
  induction s as [|c s IH]; intros g; simpl.
  - destruct (m "") as [g'|] eqn:E; [intros [= <-]; exact (Hm _ _ E)|discriminate].
  - destruct (m (String c s)) as [g'|] eqn:E;
      [intros [= <-]; exact (Hm _ _ E)|exact (IH g)].
Qed.

Lemma extract_tweet_id_isdigit (input_str : string) :
  match extract_tweet_id input_str with
  | Some tweet_id => isdigit tweet_id = true
  | None => True
  end.
Proof.
  unfold extract_tweet_id.
  destruct (isdigit input_str) eqn:E; [exact E|].
  destruct (search match_host_status input_str) as [g|] eqn:E1.
  - exact (search_spec _ _ match_host_status_digits _ _ E1).
  - destruct (search match_status input_str) as [g|] eqn:E2; [|exact I].
    exact (search_spec _ _ match_status_digits _ _ E2).
Qed.

(** [extract_tweet_id] returns only strings of digits, and returns a
    string of digits unchanged. *)
Lemma extract_tweet_id_digits (input_str : string) :
  match extract_tweet_id input_str with
  | Some tweet_id => isdigit tweet_id = true
  | None => True
  end /\
  (isdigit input_str = true -> extract_tweet_id input_str = Some input_str).
Proof.
  split; [exact (extract_tweet_id_isdigit input_str)|].
  intros H. unfold extract_tweet_id. rewrite H. reflexivity.
Qed.

Lemma probe_shape (data_dir_set : bool) (line : string) :
  probe data_dir_set line = (IGNORE, []) \/
  exists user tweet_id,
    probe data_dir_set line =
      (TAG_WITH_PREPROCESS_ONLY, [("user", PStr user); ("tweet_id", PStr tweet_id)]) /\
    isdigit tweet_id = true.
Proof.
  unfold probe. destruct data_dir_set; simpl; [|left; reflexivity].
  destruct (search match_shortcode line) as [[user tid_str]|]; [|left; reflexivity].
  pose proof (extract_tweet_id_isdigit tid_str) as Hd.
  destruct (extract_tweet_id tid_str) as [tid|]; [|left; reflexivity].
  destruct (String.eqb tid "") eqn:E; [left; reflexivity|right].
  exists user, tid. split; [reflexivity|exact Hd].
Qed.

(** [TweetDownloaderModule.probe] either ignores a line or tags it for
    preprocessing only, with the user and a numeric tweet id; the job it
    yields is rate-limited under [publish.x.com]. *)
Lemma probe_preprocess_only (data_dir_set : bool) (line : string) :
  probe data_dir_set line = (IGNORE, []) \/
  exists user tweet_id,
    probe data_dir_set line =
      (TAG_WITH_PREPROCESS_ONLY, [("user", PStr user); ("tweet_id", PStr tweet_id)]) /\
    isdigit tweet_id = true /\
    forall p k, extract_domain_from_job
                  (mkJob p k line "tweet_downloader" (snd (probe data_dir_set line)))
                = Some "publish.x.com".
Proof.
  destruct (probe_shape data_dir_set line) as [H|(user & tid & H & Hd)];
    [left; exact H|right].
  exists user, tid. split; [exact H|split; [exact Hd|]].
  intros p k. rewrite H.
  apply (tweet_domain_of_metadata _ (PStr tid)); reflexivity.
Qed.

(** [ScriptStripper] drops a [<script>] element, its tags and all the
    text inside it. *)
Lemma script_body_dropped (st : stripper) (attrs : list (string * option string))
    (body : list string) :
  feed (StartTag "script" attrs :: map Data body ++ [EndTag "script"]) st =
  mkStripper (result st) false.
Proof.
  unfold feed. cbn [fold_left handle]. unfold handle_starttag at 1.
  rewrite String.eqb_refl. cbn [skip_tag result].
  assert (forall r, fold_left handle (map Data body) (mkStripper r true) = mkStripper r true)
    as Hb.
  { induction body as [|d body IH]; intros r; [reflexivity|]. exact (IH r). }
  rewrite fold_left_app, Hb. reflexivity.
Qed.

(** [ScriptStripper] writes attribute values between quotes without
    escaping them: a kept attribute whose value holds a quote can bring
    back an [on*] handler the stripper had filtered out. *)
Lemma attribute_value_unescaped (tag key attr x : string)
    (Htag : String.eqb tag "script" = false) (Hframe : is_frame tag = false)
    (Hkey : String.prefix "on" key = false) :
  sanitize_html
    [StartTag tag [(key, Some (String.append dq (String.append " "
                     (String.append attr (String.append "=" (String.append dq x))))))]] =
  String.append "<" (String.append tag (String.append " "
    (String.append key (String.append "=" (String.append dq (String.append dq
      (String.append " " (String.append attr (String.append "=" (String.append dq
        (String.append x (String.append dq ">")))))))))))).
Proof.
  unfold sanitize_html, feed. cbn [fold_left handle]. unfold handle_starttag.
  rewrite Htag, Hframe. unfold sanitize_attrs. cbn [filter fst]. rewrite Hkey.
  cbn [negb map join_space]. unfold get_sanitized_html, push, render_attr.
  cbn [result fst snd fold_right app]. rewrite str_append_empty.
  rewrite !str_append_assoc. reflexivity.
Qed.

Lemma attribute_value_unescaped_witness :
  sanitize_html
    [StartTag "a" [("href", Some (String.append dq (String.append " "
                     (String.append "onclick" (String.append "=" (String.append dq
                        "alert(1)"))))))]] =
  String.append "<a href=" (String.append dq (String.append dq
    (String.append " onclick=" (String.append dq (String.append "alert(1)"
      (String.append dq ">")))))).
Proof.
  rewrite (attribute_value_unescaped "a" "href" "onclick" "alert(1)"); reflexivity.
Defined.


End TweetFacts.

(* ------------------------------------------------------------------ *)
(** ** The tweet module in the scan *)

Section NeverTagged.

(** Modules whose [probe] never asks for postprocessing. *)
Variable P : BaseModule -> Prop.
Hypothesis HP : forall m p k l, P m ->
  fst (m_probe m p k l) <> TAG /\
  fst (m_probe m p k l) <> TAG_WITH_PREPROCESS_AND_POSTPROCESS.


Lemma scan_line_pp_free (p : path) (k : nat) (l : string) (mods : list ModuleState) :
  pp_free P mods -> pp_free P (fst (scan_line p k l mods)).
Proof.
  induction mods as [|ms mods IH]; simpl; intros Hf; [exact Hf|].
  assert (Hms : P (ms_module (fst (if m_regex (ms_module ms) l
                                   then dispatch p k l ms (m_probe (ms_module ms) p k l)
                                   else (ms, false)))) ->
                postprocess_lines (fst (if m_regex (ms_module ms) l
                                   then dispatch p k l ms (m_probe (ms_module ms) p k l)
                                   else (ms, false))) = []).
  { destruct (m_regex (ms_module ms) l); [|apply Hf; left; reflexivity].
    rewrite dispatch_module. intros Hm.
    destruct (HP (ms_module ms) p k l Hm) as [H1 H2].
    destruct (m_probe (ms_module ms) p k l) as [[] md]; simpl in *;
      try (apply Hf; [left; reflexivity|exact Hm]); congruence. }
  assert (pp_free P mods) as Hf' by (intros ms0 Hin; apply Hf; right; exact Hin).
  specialize (IH Hf').
  destruct (if m_regex (ms_module ms) l then _ else _) as [ms1 e1].
  destruct (scan_line p k l mods) as [rest e2]. simpl in *.
  intros ms0 [<-|Hin]; [exact Hms|exact (IH ms0 Hin)].
Qed.

Lemma scan_lines_pp_free (p : path) (k : nat) (lines : list string)
    (mods : list ModuleState) :
  pp_free P mods -> pp_free P (fst (scan_lines p k lines mods)).
Proof.
  revert k mods; induction lines as [|l ls IH]; intros k mods Hf; simpl; [exact Hf|].
  pose proof (scan_line_pp_free p k l mods Hf) as H1.
  destruct (scan_line p k l mods) as [mods1 e1].
  specialize (IH (S k) mods1 H1).
  destruct (scan_lines p (S k) ls mods1) as [mods2 e2]. exact IH.
Qed.

Lemma expand_file_modules (E : env) (st : Processor) (p : path) :
  modules (snd (expand_file E st p)) = modules st.
Proof.
  unfold expand_file. cbv zeta.
  destruct (String.eqb (name p) "index.md"); [reflexivity|].
  destruct (dry_run st); [reflexivity|].
  repeat match goal with |- context [if ?b then _ else _] => destruct b end;
    reflexivity.
Qed.

Lemma process_file_pp_free (E : env) (p : path) (st : Processor) :
  pp_free P (modules st) -> pp_free P (modules (process_file E p st)).
Proof.
  intros Hf. unfold process_file.
  destruct (existsb (path_eqb p) (expanded_files st)); [exact Hf|].
  destruct (read_file E st p) as [lines|]; [|exact Hf].
  pose proof (scan_lines_pp_free p 0 lines (modules st) Hf) as Hs.
  destruct (scan_lines p 0 lines (modules st)) as [mods e]. simpl in Hs.
  destruct e; [|exact Hs].
  pose proof (expand_file_modules E (set_modules mods st) p) as He.
  destruct (expand_file E (set_modules mods st) p) as [[nf|] st2]; simpl in He;
    [|rewrite He; exact Hs].
  destruct (negb (dry_run st2)); [|rewrite He; exact Hs].
  simpl. rewrite He. intros ms' Hin Hm.
  unfold purge in Hin. apply in_map_iff in Hin as [ms [<- Hin]]. simpl in *.
  rewrite (Hs ms Hin Hm). reflexivity.
Qed.

Lemma scan_all_pp_free (E : env) : forall fuel st st',
  pp_free P (modules st) -> scan_all E fuel st = Some st' -> pp_free P (modules st').
Proof.
  induction fuel as [|fuel IH]; intros st st' Hf; simpl;
    destruct (files_to_process st) as [|p rest];
    try (intros [= <-]; exact Hf); try discriminate.
  apply IH. apply (process_file_pp_free E p). exact Hf.
Qed.

End NeverTagged.


(** Scanning never gives [TweetDownloaderModule] a tagged line, so its
    [postprocess], whose signature does not match the engine's call, is
    never called. *)
Lemma tweet_module_never_postprocessed (E : env) (fuel : nat) (st st' : Processor)
    (H0 : forall ms, In ms (modules st) -> is_tweet_module (ms_module ms) ->
          postprocess_lines ms = [])
    (Hs : scan_all E fuel st = Some st') :
  forall ms, In ms (modules st') -> is_tweet_module (ms_module ms) ->
  postprocess_lines ms = [].
Proof.
  apply (scan_all_pp_free is_tweet_module) with (E := E) (fuel := fuel) (st := st);
    [|exact H0|exact Hs].
  intros m p k l [b ->]. cbn [m_probe tweet_module].
  destruct (TweetFacts.probe_shape b l) as [->|(u & t & -> & _)];
    split; discriminate.
Qed.

Lemma tweet_module_never_postprocessed_witness :
  postprocess_lines
    (hd (mkMS (tweet_module true) [] [])
       (modules (bump_processed
          (process_file Fixtures.E_ok ["post.md"]
             (emit [EvPop ["post.md"]] (set_files [] st_tweet)))))) = [].
Proof.
  assert (E : modules (bump_processed
                (process_file Fixtures.E_ok ["post.md"]
                   (emit [EvPop ["post.md"]] (set_files [] st_tweet)))) =
              [mkMS (tweet_module true)
                 [mkJob ["post.md"] 0 tweet_line "tweet_downloader"
                    [("user", PStr "jack"); ("tweet_id", PStr "20")]] []])
    by reflexivity.
  apply (tweet_module_never_postprocessed Fixtures.E_ok 1 st_tweet
           (bump_processed (process_file Fixtures.E_ok ["post.md"]
              (emit [EvPop ["post.md"]] (set_files [] st_tweet))))).
  - intros ms [<-|[]] _. reflexivity.
  - reflexivity.
  - rewrite E. left. reflexivity.
  - exists true. rewrite E. reflexivity.
Defined.
